(** * genomedata._util: a shallow embedding and its verified properties

    The module [genomedata/_util.py] is Python 2 code: strings are byte
    strings, [next] is the iterator protocol method, and a file handle is
    an iterator over its lines that is consumed as it is read.

    Python values are modelled as follows.
    - [str]: [string] of the Standard Library (a list of 8-bit characters);
    - a file handle being iterated: the list of the lines not yet read;
    - [None]-or-value: [option];
    - a raised exception: the [Raise] case of [exc], carrying the class. *)

From Stdlib Require Import List String Ascii Bool Arith ZArith Lia.
From Stdlib.Strings Require Import Byte.
From Stdlib Require Import DecimalString DecimalN DecimalPos.
Import ListNotations.

Local Open Scope string_scope.
Local Open Scope list_scope.

(** ** Exceptions *)

Inductive exception : Type :=
| IOError          (* builtin open / gzip open on a path that cannot be opened *)
| StructError      (* struct.error, raised by struct.unpack *)
| AssertionError   (* a failed assert statement *)
| IndexError       (* tuple index out of range *)
| ValueError       (* raised by LightIterator.next, and by numpy *)
| StopIteration.   (* the iterator protocol's end of sequence *)

Inductive exc (A : Type) : Type :=
| Ok (a : A)
| Raise (e : exception).
Arguments Ok {A} a.
Arguments Raise {A} e.

Definition bind {A B : Type} (m : exc A) (k : A -> exc B) : exc B :=
  match m with
  | Ok a => k a
  | Raise e => Raise e
  end.

Notation "x <- m ;; k" := (bind m (fun x => k))
  (at level 61, m at next level, right associativity).

(** ** Python string methods used by the module *)

Module PyStr.

(** [s.startswith(c)] for a one character prefix [c]. *)
Definition startswith (s : string) (c : ascii) : bool :=
  match s with
  | EmptyString => false
  | String a _ => Ascii.eqb a c
  end.

(** Truth value of a string: [not s] holds of the empty string only. *)
Definition nonempty (s : string) : bool :=
  match s with
  | EmptyString => false
  | String _ _ => true
  end.

(** Truth value of a None-or-string object. *)
Definition truthy (o : option string) : bool :=
  match o with
  | None => false
  | Some s => nonempty s
  end.

(** The characters removed by [str.rstrip()] with no argument (Python 2,
    C locale): space, tab, line feed, vertical tab, form feed, carriage
    return. *)
Definition isspace (a : ascii) : bool :=
  let n := nat_of_ascii a in
  ((n =? 32) || ((9 <=? n) && (n <=? 13)))%nat.

(** [s.rstrip()]: [s] without its trailing white space. *)
Fixpoint rstrip (s : string) : string :=
  match s with
  | EmptyString => EmptyString
  | String a s' =>
      match rstrip s' with
      | EmptyString => if isspace a then EmptyString else String a EmptyString
      | r => String a r
      end
  end.

(** [s[1:]] *)
Definition drop1 (s : string) : string :=
  match s with
  | EmptyString => EmptyString
  | String _ s' => s'
  end.

(** [''.join(lines)] *)
Definition join (lines : list string) : string := String.concat "" lines.

(** A line as a file yields it: its text and the line feed. *)
Definition LF : ascii := "010"%char.
Definition line (text : string) : string := text ++ String LF "".

(** [s.endswith(suffix)]: the last [len(suffix)] characters of [s] exist and
    are [suffix]. *)
Definition endswith (s suffix : string) : bool :=
  (String.length suffix <=? String.length s)%nat &&
  String.eqb (substring (String.length s - String.length suffix)
                        (String.length suffix) s) suffix.

End PyStr.

(** ** LightIterator *)

Module Parser.
Import PyStr.

(** The object state: the handle (lines still to be read) and [_defline]. *)
Record LightIterator : Type := mkLightIterator {
  _handle : list string;
  _defline : option string
}.

(** [LightIterator(handle)] *)
Definition init (handle : list string) : LightIterator :=
  mkLightIterator handle None.

(** What [next] returns: the pair [(defline_old, ''.join(lines))]. *)
Definition record : Type := (string * string)%type.

(** Truth value of a list: [not lines] holds of the empty list only. *)
Definition nonempty_list (lines : list string) : bool :=
  match lines with
  | [] => false
  | _ :: _ => true
  end.

(** Lines 57 to 63, once the [for] loop is over. *)
Definition finish (defline_old : option string) (lines : list string) : exc record :=
  match lines with
  | [] => Raise StopIteration
  | _ :: _ =>
      match defline_old with
      | None => Raise ValueError
      | Some d => Ok (d, join lines)
      end
  end.

(** The [for] loop of lines 41 to 55 followed by lines 57 to 63.  [handle]
    is what the file iterator still holds, [self_defline] the attribute,
    [defline_old] and [lines] the local variables.  A [break] leaves the
    rest of the handle unread. *)
Fixpoint for_line (handle : list string) (self_defline defline_old : option string)
         (lines : list string) : exc record * LightIterator :=
  match handle with
  | [] => (finish defline_old lines, mkLightIterator [] self_defline)
  | line :: rest =>
      if negb (nonempty line) then
        if negb (truthy defline_old) && negb (nonempty_list lines) then
          (Raise StopIteration, mkLightIterator rest self_defline)
        else if truthy defline_old then
          (finish defline_old lines, mkLightIterator rest None)
        else for_line rest self_defline defline_old lines
      else if startswith line ">"%char then
        let d := Some (rstrip (drop1 line)) in
        if truthy defline_old || nonempty_list lines then
          (finish defline_old lines, mkLightIterator rest d)
        else for_line rest d d lines
      else for_line rest self_defline defline_old (lines ++ [rstrip line])
  end.

(** The method [next]. *)
Definition next (self : LightIterator) : exc record * LightIterator :=
  for_line (_handle self) (_defline self) (_defline self) [].

(** Driving the iterator as a [for] statement or [list(...)] does: [next]
    is called until it raises.  The result is the list of the records
    obtained and the exception that ended the iteration ([StopIteration]
    for a normal end).  Every record returned consumes at least one line of
    the handle, so that [S (length handle)] calls always suffice
    (lemma [iterate_total] below). *)
Fixpoint iterate_fuel (fuel : nat) (self : LightIterator)
  : option (list record * exception) :=
  match fuel with
  | O => None
  | S fuel' =>
      match next self with
      | (Raise e, _) => Some ([], e)
      | (Ok r, self') =>
          match iterate_fuel fuel' self' with
          | Some (rs, e) => Some (r :: rs, e)
          | None => None
          end
      end
  end.

Definition iterate (self : LightIterator) : option (list record * exception) :=
  iterate_fuel (S (List.length (_handle self))) self.

(** *** The record-stream text format

    A marker line begins with the sigil; a body line is any other line that
    is not the empty string (a line read from a file is never the empty
    string: it holds at least its line break, or is the unterminated last
    line). *)
Definition is_marker (line : string) : bool := startswith line ">"%char.

Definition is_body (line : string) : bool := nonempty line && negb (is_marker line).

(** The label carried by a marker line. *)
Definition label_of (line : string) : string := rstrip (drop1 line).

(** Input on which every marker line gives its record: no line is the
    empty string, the first line is a marker line, every marker line
    carries a non-empty label and is followed at once by a body line.
    This is more than the framing of the format asks: see [framed] and
    [bodies_follow] below.  [prev_marker] tells whether the line before
    was a marker line. *)
Fixpoint well_formed_from (prev_marker : bool) (input : list string) : bool :=
  match input with
  | [] => negb prev_marker
  | line :: rest =>
      if is_marker line then
        negb prev_marker && nonempty (label_of line) && well_formed_from true rest
      else nonempty line && well_formed_from false rest
  end.

Definition well_formed (input : list string) : bool :=
  match input with
  | [] => true
  | line :: _ => is_marker line && well_formed_from false input
  end.

(** The lines up to the next marker line, and what follows them. *)
Fixpoint body_lines (input : list string) : list string :=
  match input with
  | [] => []
  | line :: rest => if is_marker line then [] else line :: body_lines rest
  end.

Fixpoint after_body (input : list string) : list string :=
  match input with
  | [] => []
  | line :: rest => if is_marker line then input else after_body rest
  end.

(** The records of an input as the format describes them: one per marker
    line, in the order of the file, made of the marker's label and of the
    concatenation of the stripped lines up to the next marker line. *)
Fixpoint records_of (input : list string) : list record :=
  match input with
  | [] => []
  | line :: rest =>
      if is_marker line
      then (label_of line, join (map rstrip (body_lines rest))) :: records_of rest
      else records_of rest
  end.

(** The state of the iterator once the call that met [handle] has returned:
    what follows the next marker line, with that marker's label pending. *)
Definition after_call (handle : list string) (self_defline : option string)
  : LightIterator :=
  match after_body handle with
  | [] => mkLightIterator [] self_defline
  | marker :: rest => mkLightIterator rest (Some (label_of marker))
  end.

(** No body line comes next: the handle is at its end or at a marker line. *)
Definition no_body_ahead (handle : list string) : bool :=
  match handle with
  | [] => true
  | line :: _ => is_marker line
  end.

Definition count_markers (input : list string) : nat :=
  List.length (filter is_marker input).

End Parser.

(** ** ignore_comments *)

Module Comments.
Import PyStr.

(** The generator expression of line 116, run to its end on a finite
    iterable: the items are visited in order and an item is yielded when
    [item.startswith("#")] is false. *)
Fixpoint ignore_comments (iterable : list string) : list string :=
  match iterable with
  | [] => []
  | item :: rest =>
      if negb (startswith item "#"%char)
      then item :: ignore_comments rest
      else ignore_comments rest
  end.

(** One step of the generator: the next item yielded and the items the
    generator has not looked at yet. *)
Fixpoint generator_next (iterable : list string) : option (string * list string) :=
  match iterable with
  | [] => None
  | item :: rest =>
      if negb (startswith item "#"%char) then Some (item, rest)
      else generator_next rest
  end.

(** [kept input output]: [output] is [input] with exactly the items that
    start with the comment character left out, the others in their order
    and unchanged. *)
Inductive kept : list string -> list string -> Prop :=
| kept_nil : kept [] []
| kept_keep item input output :
    startswith item "#"%char = false ->
    kept input output -> kept (item :: input) (item :: output)
| kept_drop item input output :
    startswith item "#"%char = true ->
    kept input output -> kept (item :: input) output.

End Comments.

(** ** maybe_gzip_open *)

Module Opener.
Import PyStr.

Definition extsep : string := ".".
Definition EXT_GZ : string := "gz".
Definition SUFFIX_GZ : string := extsep ++ EXT_GZ.

(** The files that exist, with their content. *)
Definition filesystem : Type := string -> option (list byte).








End Opener.

(** ** is_big_wig *)

Module BigWig.
Import Opener.

Local Open Scope Z_scope.

Definition BIG_WIG_FIELD_COUNT : Z := 4.
Definition BIG_WIG_SIGNATURE : Z := 0x888FFC26.
Definition BIG_WIG_SIGNATURE_BYTE_SIZE : nat := 4.

Definition byte_value (b : byte) : Z := Z.of_N (Byte.to_N b).

(** [open(filename, "rb")] then [read(size)] then the end of the [with]
    block: at most [size] bytes from the start of the file. *)
Definition read_prefix (fs : filesystem) (filename : string) (size : nat)
  : exc (list byte) :=
  match fs filename with
  | None => Raise IOError
  | Some content => Ok (firstn size content)
  end.

(** The byte orders of the struct module's format strings. *)
Inductive byte_order : Type := LittleEndian | BigEndian.

(** An unsigned integer from its bytes, most significant first. *)
Fixpoint from_bytes_be (acc : Z) (s : list byte) : Z :=
  match s with
  | [] => acc
  | b :: s' => from_bytes_be (Z.lor (Z.shiftl acc 8) (byte_value b)) s'
  end.

(** [struct.unpack("<L", s)[0]] and [struct.unpack(">L", s)[0]]: the
    standard size of [L] is 4 bytes, and unpack raises struct.error when
    the string is not of that length. *)
Definition unpack_L (order : byte_order) (s : list byte) : exc Z :=
  if (List.length s =? 4)%nat then
    match order with
    | LittleEndian => Ok (from_bytes_be 0 (rev s))
    | BigEndian => Ok (from_bytes_be 0 s)
    end
  else Raise StructError.

Definition is_big_wig (fs : filesystem) (filename : string) : exc bool :=
  signature_string <- read_prefix fs filename BIG_WIG_SIGNATURE_BYTE_SIZE ;;
  little_endian_signature <- unpack_L LittleEndian signature_string ;;
  big_endian_signature <- unpack_L BigEndian signature_string ;;
  if (little_endian_signature =? BIG_WIG_SIGNATURE) ||
     (big_endian_signature =? BIG_WIG_SIGNATURE)
  then Ok true
  else Ok false.

(** The two byte strings that hold the magic constant. *)
Definition signature_le : list byte := [x26; xfc; x8f; x88]%byte.
Definition signature_be : list byte := [x88; x8f; xfc; x26]%byte.

(** The value of four bytes read as an unsigned 32-bit integer, by place
    value. *)
Definition uint32_le (b0 b1 b2 b3 : byte) : Z :=
  byte_value b0 + 256 * byte_value b1 + 65536 * byte_value b2
  + 16777216 * byte_value b3.

Definition uint32_be (b0 b1 b2 b3 : byte) : Z := uint32_le b3 b2 b1 b0.

End BigWig.

(** ** init_num_obs and new_extrema *)

Module Accum.

(** A numpy array as numpy stores it: its shape and its items in row-major
    order.  Items are exact integers; floating point items, and NaN with
    them, are outside this model. *)
Record ndarray : Type := mk_ndarray {
  shape : list nat;
  flat : list Z
}.

(** The number of items of an array of a given shape. *)
Definition size_of (s : list nat) : nat := fold_right Nat.mul 1%nat s.

(** An array holds as many items as its shape says. *)
Definition valid (a : ndarray) : Prop := List.length (flat a) = size_of (shape a).

(** [assert num_obs is None or num_obs == curr_num_obs] *)
Definition same_num_obs (num_obs : option nat) (curr_num_obs : nat) : bool :=
  match num_obs with
  | None => true
  | Some n => (n =? curr_num_obs)%nat
  end.

Definition init_num_obs (num_obs : option nat) (continuous : ndarray) : exc nat :=
  match nth_error (shape continuous) 1 with
  | None => Raise IndexError
  | Some curr_num_obs =>
      if same_num_obs num_obs curr_num_obs then Ok curr_num_obs
      else Raise AssertionError
  end.

(** What [new_extrema] hands to [func]: an array, or a Python list whose
    items are None or arrays. *)
Inductive array_like : Type :=
| AnArray (a : ndarray)
| AList (items : list (option ndarray)).

(** [new_extrema], lines 91 to 94.  Both calls of [func] pass the axis 0,
    so [func] stands for [lambda a: func(a, 0)]. *)
Definition new_extrema (func : array_like -> exc ndarray) (data : ndarray)
           (extrema : option ndarray) : exc ndarray :=
  curr_extrema <- func (AnArray data) ;;
  func (AList [extrema; Some curr_extrema]).

(** *** The reduction operators

    The callers pass numpy's min and max reductions as [func]; numpy is
    not part of the sources. *)

Definition same_shape (s : list nat) (o : option ndarray) : bool :=
  match o with
  | None => false
  | Some b => if list_eq_dec Nat.eq_dec (shape b) s then true else false
  end.

Definition flat_of (o : option ndarray) : list Z :=
  match o with
  | None => []
  | Some b => flat b
  end.

(** Modelled from the spec: numpy's conversion of the argument of a
    reduction into an array is not defined in the sources.  A list of
    arrays of one shape is stacked along a new first axis (the batch axis);
    a list that holds None or arrays of different shapes is no numeric
    array, and the reduction raises. *)
Definition asarray (x : array_like) : exc ndarray :=
  match x with
  | AnArray a => Ok a
  | AList [] => Ok (mk_ndarray [0%nat] [])
  | AList (None :: _) => Raise ValueError
  | AList (Some a :: rest) =>
      if forallb (same_shape (shape a)) rest
      then Ok (mk_ndarray (S (List.length rest) :: shape a)
                          (flat a ++ List.concat (map flat_of rest)))
      else Raise ValueError
  end.

Fixpoint zip_with (op : Z -> Z -> Z) (u v : list Z) : list Z :=
  match u, v with
  | x :: u', y :: v' => op x y :: zip_with op u' v'
  | _, _ => []
  end.

(** Folds [k] further blocks of [n] items into the accumulated block. *)
Fixpoint fold_blocks (op : Z -> Z -> Z) (n k : nat) (items acc : list Z) : list Z :=
  match k with
  | O => acc
  | S k' => fold_blocks op n k' (skipn n items) (zip_with op acc (firstn n items))
  end.

(** Modelled from the spec: the reduction of an array along its batch axis
    (axis 0) by a binary min or max is numpy's and is not defined in the
    sources.  The [k] blocks of the array are combined item by item; an
    array without axis, or with no block to start from, raises. *)
Definition reduce_axis0 (op : Z -> Z -> Z) (a : ndarray) : exc ndarray :=
  match shape a with
  | [] => Raise ValueError
  | k :: s =>
      let n := size_of s in
      match k with
      | O => if (n =? 0)%nat then Ok (mk_ndarray s []) else Raise ValueError
      | S k' =>
          Ok (mk_ndarray s (fold_blocks op n k' (skipn n (flat a)) (firstn n (flat a))))
      end
  end.

(** Modelled from the spec: the reduction operator (min or max) that the
    callers pass as [func], numpy's [amin] and [amax] at axis 0, not defined
    in the sources. *)
Definition reduction (op : Z -> Z -> Z) (x : array_like) : exc ndarray :=
  a <- asarray x ;; reduce_axis0 op a.

Definition amin : array_like -> exc ndarray := reduction Z.min.
Definition amax : array_like -> exc ndarray := reduction Z.max.

(** The items of a batch at position [i]: one per block of [n] items. *)
Definition column (n k : nat) (items : list Z) (i : nat) : list Z :=
  map (fun j => nth (j * n + i) items 0%Z) (seq 0 k).

(** The extremum of a non-empty list for a binary min or max. *)
Definition extremum (op : Z -> Z -> Z) (l : list Z) : Z :=
  match l with
  | [] => 0%Z
  | x :: r => fold_left op r x
  end.

End Accum.

(** ** fill_array *)

Module Fill.
Import Accum.

Section FillArray.

(** numpy's item types, the type numpy infers for a scalar
    ([array(scalar).dtype]), the value an item takes once stored with a
    type, and what a block of memory that was not initialised holds: all
    four are numpy's and are parameters here. *)
Variable dtype : Type.
Variable dtype_of : Z -> dtype.
Variable cast : dtype -> Z -> Z.
Variable garbage : nat -> Z.

(** Modelled from the spec: numpy's [empty(shape, dtype)], not defined in
    the sources: a new array of the shape asked for, whose items are not
    initialised. *)
Definition empty (shape : list nat) (dt : dtype) : ndarray :=
  mk_ndarray shape (map garbage (seq 0 (size_of shape))).

(** Modelled from the spec: numpy's [res.fill(scalar)], not defined in the
    sources: every item of the array becomes the scalar, stored with the
    type of the array. *)
Definition fill (dt : dtype) (res : ndarray) (scalar : Z) : ndarray :=
  mk_ndarray (shape res) (map (fun _ => cast dt scalar) (flat res)).

(** [fill_array], lines 66 to 73; [dtype_arg] is None when the caller
    leaves the type out. *)
Definition fill_array (scalar : Z) (shape : list nat) (dtype_arg : option dtype)
  : ndarray :=
  let dt := match dtype_arg with
            | None => dtype_of scalar
            | Some d => d
            end in
  let res := empty shape dt in
  fill dt res scalar.

End FillArray.

End Fill.

(** ** new_extrema: the reduction of a batch *)

Module Batch.
Import Accum.

(** The items of the reduction of a batch of [S k] blocks of [n] items, as
    [reduce_axis0] computes them. *)
Definition batch_reduction (op : Z -> Z -> Z) (n k : nat) (items : list Z) : list Z :=
  fold_blocks op n k (skipn n items) (firstn n items).

End Batch.

(** ** install.py: versions *)

Module Versions.
Import PyStr.

(** The class [[0-9]] of the regular expression, on byte strings. *)
Definition is_digit (a : ascii) : bool :=
  let n := nat_of_ascii a in ((48 <=? n) && (n <=? 57))%nat.

(** [re.split("[^0-9]+", ver)]: [ver] cut at every maximal run of
    characters that are no digits.  [current] is the component being read
    and [in_separator] tells whether the character before belonged to a
    separator. *)
Fixpoint split_from (ver current : string) (in_separator : bool) : list string :=
  match ver with
  | EmptyString => [current]
  | String a rest =>
      if is_digit a then split_from rest (current ++ String a "") false
      else if in_separator then split_from rest "" true
      else current :: split_from rest "" true
  end.

Definition re_split_non_digits (ver : string) : list string :=
  split_from ver "" false.

(** [int(component)] on a string of decimal digits; any other string
    raises ValueError (None).  Python integers are unbounded. *)
Definition int (component : string) : option N :=
  if nonempty component
  then option_map N.of_uint (NilEmpty.uint_of_string component)
  else None.

(** [str(val)] for a non-negative integer. *)
Definition str (val : N) : string := NilEmpty.string_of_uint (N.to_uint val).

(** [version2str], lines 367 and 368. *)
Definition version2str (ver : list N) : string :=
  String.concat "." (map str ver).

(** The loop of lines 374 to 380: [res] is the list built so far; a
    ValueError leaves the loop. *)
Fixpoint components_loop (components : list string) (res : list N) : list N :=
  match components with
  | [] => res
  | component :: rest =>
      if (0 <? String.length component)%nat then
        match int component with
        | Some val => components_loop rest (res ++ [val])
        | None => res
        end
      else components_loop rest res
  end.

(** [version2tuple], lines 370 to 386: the tuple, or None. *)
Definition version2tuple (ver : string) : option (list N) :=
  let components := re_split_non_digits ver in
  let res := components_loop components [] in
  if (0 <? List.length res)%nat then Some res else None.

(** Whether a string holds a digit. *)
Fixpoint has_digit (s : string) : bool :=
  match s with
  | EmptyString => false
  | String a rest => is_digit a || has_digit rest
  end.

(** Whether a string holds digits only. *)
Fixpoint all_digits (s : string) : bool :=
  match s with
  | EmptyString => true
  | String a rest => is_digit a && all_digits rest
  end.

End Versions.

(** ** install.py: ShellManager *)

Module Shell.
Import PyStr.

(** [s.lstrip()] and [s.strip()] with no argument. *)
Fixpoint lstrip (s : string) : string :=
  match s with
  | EmptyString => EmptyString
  | String a rest => if isspace a then lstrip rest else s
  end.

Definition strip (s : string) : string := lstrip (rstrip s).

(** [s.split(sep)] for a one character separator: the pieces between the
    occurrences of the separator, empty pieces included. *)
Fixpoint split_on (sep : ascii) (s : string) : list string :=
  match s with
  | EmptyString => [EmptyString]
  | String a rest =>
      if Ascii.eqb a sep then EmptyString :: split_on sep rest
      else match split_on sep rest with
           | piece :: pieces => String a piece :: pieces
           | [] => [String a EmptyString]
           end
  end.

(** [value in values] for a list of strings. *)
Definition contains (values : list string) (value : string) : bool :=
  existsb (String.eqb value) values.

(** Whether a character occurs in a string. *)
Fixpoint has_char (c : ascii) (s : string) : bool :=
  match s with
  | EmptyString => false
  | String a rest => Ascii.eqb a c || has_char c rest
  end.

(** [os.environ]: the variables that are set, with their values. *)
Definition environ : Type := string -> option string.

(** [set_env], lines 131 to 134: [os.environ[variable] = value]. *)
Definition set_env (env : environ) (variable value : string) : environ :=
  fun v => if String.eqb v variable then Some value else env v.

(** [add_to_env], lines 136 to 142. *)
Definition add_to_env (env : environ) (variable value : string) : environ :=
  let value :=
    match env variable with
    | Some old => (value ++ ":" ++ old)%string
    | None => value
    end in
  set_env env variable value.

(** [in_env], lines 144 to 155; the KeyError of a variable that is not set
    gives False. *)
Definition in_env (env : environ) (variable value : string) : bool :=
  match env variable with
  | Some e =>
      let env_values := split_on ":" (strip e) in
      contains env_values value
  | None => false
  end.

(** [os.path.basename]: what follows the last slash. *)
Definition basename (path : string) : string :=
  last (split_on "/" path) EmptyString.

(** ["%s" % x] for a string or None. *)
Definition format_s (x : option string) : string :=
  match x with
  | Some text => text
  | None => "None"
  end.

(** The attributes set by [__init__]; [_out] is None after it. *)
Record ShellManager : Type := mkShellManager {
  name : string;
  _env_format : string;
  file : option string;
  has_file : bool
}.

(** [__init__], lines 76 to 111, with what it prints on the standard error
    and on the standard output. *)
Definition init (shell : option string) (env : environ)
  : ShellManager * list string * list string :=
  let '(shell, name) :=
    match shell with
    | Some given => (Some given, given)
    | None =>
        match env "SHELL" with
        | Some path => (Some (basename path), basename path)
        | None => (None, EmptyString)
        end
    end in
  let _env_format :=
    if endswith name "csh" then "setenv %s %s"
    else if endswith name "sh" then "export %s=%s"
    else "set %s to %s" in
  let '(file, err) :=
    if endswith name "sh"
    then (Some ("~/" ++ ("." ++ format_s shell ++ "rc"))%string, [])
    else (None,
          match shell with
          | None => ["SHELL variable missing or confusing."]
          | Some given => [("Unrecognized shell: " ++ given)%string]
          end) in
  let out :=
    match file with
    | None => ["Shell-specific commands will be printed to the terminal"]
    | Some _ => []
    end in
  (mkShellManager name _env_format file
                  (match file with None => false | Some _ => true end),
   err, out).

End Shell.

(** ** install.py: prompt_yes_no *)

Module Prompt.
Import PyStr Shell.

(** [s.lower()] on a byte string. *)
Definition lower_char (a : ascii) : ascii :=
  let n := nat_of_ascii a in
  if ((65 <=? n) && (n <=? 90))%nat then ascii_of_nat (n + 32) else a.

Fixpoint lower (s : string) : string :=
  match s with
  | EmptyString => EmptyString
  | String a rest => String (lower_char a) (lower rest)
  end.

(** A print statement, without or with the trailing comma. *)
Inductive printed : Type :=
| Print (text : string)
| PrintComma (text : string).

(** How the call ends: it returns, or [raw_input] finds the standard input
    at its end and raises EOFError. *)
Inductive ending : Type :=
| Returned (answer : bool)
| EOFError.

(** Lines 626 to 635: what one response makes of the loop: the value
    returned, or None when the loop goes on. *)
Definition answer (default raw : string) : option bool :=
  let response := lower (strip raw) in
  let response :=
    if (String.length response =? 0)%nat then lower (strip default)
    else response in
  if startswith response "y" then Some true
  else if startswith response "n" then Some false
  else None.

(** The text of line 624. *)
Definition yes_no_prompt (query default : string) : string :=
  (query ++ " (Y/n) [" ++ default ++ "] ")%string.

(** [prompt_yes_no], lines 616 to 635.  [stdin] holds the lines that
    [raw_input] will return; the result is what was printed, how the call
    ends and the lines left unread. *)
Fixpoint prompt_yes_no (query default : string) (stdin : list string)
  : list printed * ending * list string :=
  match stdin with
  | [] => ([PrintComma (yes_no_prompt query default)], EOFError, [])
  | raw :: rest =>
      match answer default raw with
      | Some b => ([PrintComma (yes_no_prompt query default)], Returned b, rest)
      | None =>
          let '(out, result, unread) := prompt_yes_no query default rest in
          (PrintComma (yes_no_prompt query default)
           :: Print "Please enter yes or no." :: out, result, unread)
      end
  end.

(** What is printed for the responses that leave the question open. *)
Definition asked_again (query default : string) (bad : list string) : list printed :=
  flat_map (fun _ => [PrintComma (yes_no_prompt query default);
                      Print "Please enter yes or no."]) bad.

End Prompt.

(** ** new_extrema on arrays of any item type *)

Module Items.

Section ItemType.

(** The type of the items: one type for all the arrays at hand, as for
    numpy arrays of one dtype, which numpy stacks without converting. *)
Variable A : Type.

Record ndarray : Type := mk_ndarray {
  shape : list nat;
  flat : list A
}.

Definition valid (a : ndarray) : Prop :=
  List.length (flat a) = Accum.size_of (shape a).

Inductive array_like : Type :=
| AnArray (a : ndarray)
| AList (items : list (option ndarray)).

(** [new_extrema], lines 91 to 94, as in [Accum]. *)
Definition new_extrema (func : array_like -> exc ndarray) (data : ndarray)
           (extrema : option ndarray) : exc ndarray :=
  curr_extrema <- func (AnArray data) ;;
  func (AList [extrema; Some curr_extrema]).

Definition same_shape (s : list nat) (o : option ndarray) : bool :=
  match o with
  | None => false
  | Some b => if list_eq_dec Nat.eq_dec (shape b) s then true else false
  end.

Definition flat_of (o : option ndarray) : list A :=
  match o with
  | None => []
  | Some b => flat b
  end.

(** Modelled from the spec: numpy's conversion of the argument of a
    reduction into an array, not defined in the sources, as in [Accum]. *)
Definition asarray (x : array_like) : exc ndarray :=
  match x with
  | AnArray a => Ok a
  | AList [] => Ok (mk_ndarray [0%nat] [])
  | AList (None :: _) => Raise ValueError
  | AList (Some a :: rest) =>
      if forallb (same_shape (shape a)) rest
      then Ok (mk_ndarray (S (List.length rest) :: shape a)
                          (flat a ++ List.concat (map flat_of rest)))
      else Raise ValueError
  end.

Fixpoint zip_with (op : A -> A -> A) (u v : list A) : list A :=
  match u, v with
  | x :: u', y :: v' => op x y :: zip_with op u' v'
  | _, _ => []
  end.

Fixpoint fold_blocks (op : A -> A -> A) (n k : nat) (items acc : list A) : list A :=
  match k with
  | O => acc
  | S k' => fold_blocks op n k' (skipn n items) (zip_with op acc (firstn n items))
  end.

(** Modelled from the spec: the reduction of an array along its batch axis
    by a binary operator, numpy's and not defined in the sources, as in
    [Accum]: a batch with no block raises. *)
Definition reduce_axis0 (op : A -> A -> A) (a : ndarray) : exc ndarray :=
  match shape a with
  | [] => Raise ValueError
  | k :: s =>
      let n := Accum.size_of s in
      match k with
      | O => if (n =? 0)%nat then Ok (mk_ndarray s []) else Raise ValueError
      | S k' =>
          Ok (mk_ndarray s (fold_blocks op n k' (skipn n (flat a)) (firstn n (flat a))))
      end
  end.

(** Modelled from the spec: the reduction operator that the callers pass
    as [func], built on the binary operator of the item type. *)
Definition reduction (op : A -> A -> A) (x : array_like) : exc ndarray :=
  a <- asarray x ;; reduce_axis0 op a.

(** The items of a batch at position [i], one per block of [n] items;
    [d] stands for an item that does not exist. *)
Definition column (d : A) (n k : nat) (items : list A) (i : nat) : list A :=
  map (fun j => nth (j * n + i) items d) (seq 0 k).

End ItemType.

Arguments mk_ndarray {A} shape flat.
Arguments shape {A} n.
Arguments flat {A} n.
Arguments valid {A} a.
Arguments AnArray {A} a.
Arguments AList {A} items.
Arguments new_extrema {A} func data extrema.
Arguments asarray {A} x.
Arguments zip_with {A} op u v.
Arguments fold_blocks {A} op n k items acc.
Arguments reduce_axis0 {A} op a.
Arguments reduction {A} op x.
Arguments column {A} d n k items i.





End Items.

(** ** LightIterator: the framing of the format *)

Module ParserFraming.
Import PyStr Parser.

(** Well-formed by the framing of the record-stream format alone: no line
    is the empty string, no body line comes before the first marker line,
    and every marker line carries a non-empty label.  Nothing is asked of
    what follows a marker line: a record may have no body line.
    [seen_marker] tells whether a marker line has been met. *)
Fixpoint framed_from (seen_marker : bool) (input : list string) : bool :=
  match input with
  | [] => true
  | line :: rest =>
      if is_marker line then nonempty (label_of line) && framed_from true rest
      else nonempty line && seen_marker && framed_from seen_marker rest
  end.

Definition framed (input : list string) : bool := framed_from false input.

(** Every marker line is followed at once by a body line: no marker line
    follows another and none is the last line.  [prev_marker] tells
    whether the line before was a marker line. *)
Fixpoint bodies_follow_from (prev_marker : bool) (input : list string) : bool :=
  match input with
  | [] => negb prev_marker
  | line :: rest =>
      if is_marker line then negb prev_marker && bodies_follow_from true rest
      else bodies_follow_from false rest
  end.

Definition bodies_follow (input : list string) : bool :=
  bodies_follow_from false input.

End ParserFraming.

(** ** LightIterator: the iteration with its states *)

Module ParserRun.
Import PyStr Parser.

(** The iteration of [iterate_fuel], which also returns the state of the
    iterator before the call of [next] that raises and the state that
    call leaves. *)
Fixpoint run_fuel (fuel : nat) (self : LightIterator)
  : option (list record * exception * LightIterator * LightIterator) :=
  match fuel with
  | O => None
  | S fuel' =>
      match next self with
      | (Raise e, final) => Some ([], e, self, final)
      | (Ok r, self') =>
          match run_fuel fuel' self' with
          | Some (rs, e, before, final) => Some (r :: rs, e, before, final)
          | None => None
          end
      end
  end.

Definition run (self : LightIterator)
  : option (list record * exception * LightIterator * LightIterator) :=
  run_fuel (S (List.length (_handle self))) self.

End ParserRun.

(** ** LightIterator: the labels of a handle *)

Module ParserLabels.
Import PyStr Parser.

(** The label held or pending, as a list. *)
Definition held (o : option string) : list string :=
  match o with
  | None => []
  | Some d => [d]
  end.

(** The labels of the marker lines of a handle, in order. *)
Definition labels (handle : list string) : list string :=
  map label_of (filter is_marker handle).

End ParserLabels.

(** * Properties *)

Import PyStr.

(** ** Strings *)

Section StringFacts.

Lemma substring_append_suffix (stem suffix : string) :
  substring (String.length stem) (String.length suffix) (stem ++ suffix) = suffix.
Proof.
  induction stem as [|a stem IH]; simpl.
  - induction suffix as [|b suffix IH]; simpl; [reflexivity|].
    now rewrite IH.
  - exact IH.
Qed.

Lemma length_append (s t : string) :
  String.length (s ++ t) = String.length s + String.length t.
Proof.
  induction s as [|a s IH]; simpl; [reflexivity|now rewrite IH].
Qed.

Lemma substring_split (s : string) :
  forall n, n <= String.length s ->
  s = (substring 0 n s ++ substring n (String.length s - n) s)%string.
Proof.
  induction s as [|a s IH]; intros n Hn; simpl in *.
  - assert (n = 0) by lia. subst. reflexivity.
  - destruct n as [|n]; simpl.
    + f_equal. clear IH Hn.
      induction s as [|b s IH]; simpl; [reflexivity|now rewrite <- IH].
    + f_equal. apply IH. lia.
Qed.

(** [endswith] holds exactly of the strings made of some stem followed by
    the suffix. *)
Lemma endswith_iff (s suffix : string) :
  endswith s suffix = true <-> exists stem, s = (stem ++ suffix)%string.
Proof.
  unfold endswith. rewrite andb_true_iff, Nat.leb_le, String.eqb_eq. split.
  - intros [Hlen Hsub].
    exists (substring 0 (String.length s - String.length suffix) s).
    assert (Hle : String.length s - String.length suffix <= String.length s) by lia.
    pose proof (substring_split s _ Hle) as Hs.
    replace (String.length s - (String.length s - String.length suffix))
      with (String.length suffix) in Hs by lia.
    now rewrite Hsub in Hs.
  - intros [stem ->]. rewrite length_append. split; [lia|].
    replace (String.length stem + String.length suffix - String.length suffix)
      with (String.length stem) by lia.
    apply substring_append_suffix.
Qed.

End StringFacts.

(** ** ignore_comments *)

Section CommentFacts.
Import Comments.

(** The generator's steps and the run to its end agree. *)
Lemma generator_next_some (iterable : list string) (item : string) (rest : list string) :
  generator_next iterable = Some (item, rest) ->
  ignore_comments iterable = item :: ignore_comments rest.
Proof.
  induction iterable as [|x xs IH]; simpl; [discriminate|].
  destruct (startswith x "#"); simpl.
  - exact IH.
  - intros [= -> ->]. reflexivity.
Qed.

Lemma generator_next_none (iterable : list string) :
  generator_next iterable = None -> ignore_comments iterable = [].
Proof.
  induction iterable as [|x xs IH]; simpl; [reflexivity|].
  destruct (startswith x "#"); simpl; [exact IH|discriminate].
Qed.

(** [kept] determines its output. *)
Lemma kept_functional (input out1 out2 : list string) :
  kept input out1 -> kept input out2 -> out1 = out2.
Proof.
  intros H1. revert out2.
  induction H1 as [|item input output Hc _ IH|item input output Hc _ IH];
    intros out2 H2; inversion H2; subst; try congruence.
  - f_equal. now apply IH.
  - now apply IH.
Qed.

(** C10: [ignore_comments] yields exactly the items that do not start with
    the comment character, in their original order and unchanged: its
    output is the input with the comment items left out, which is also the
    input filtered by the test, and no item of the output starts with the
    comment character. *)
Theorem ignore_comments_subsequence (iterable : list string) :
  kept iterable (ignore_comments iterable)
  /\ ignore_comments iterable
     = filter (fun item => negb (startswith item "#")) iterable
  /\ Forall (fun item => startswith item "#" = false) (ignore_comments iterable).
Proof.
  induction iterable as [|item rest (IHk & IHf & IHa)]; simpl.
  - split; [|split]; constructor.
  - destruct (startswith item "#") eqn:Hc; simpl.
    + split; [|split]; [now apply kept_drop|exact IHf|exact IHa].
    + split; [|split]; [now apply kept_keep|now rewrite IHf|now constructor].
Qed.

End CommentFacts.

(** ** maybe_gzip_open *)

Section OpenerFacts.
Import Opener.

Lemma SUFFIX_GZ_value : SUFFIX_GZ = ".gz".
Proof. reflexivity. Qed.

(** The comparison is case sensitive. *)
Example endswith_upper_case : endswith "track.GZ" SUFFIX_GZ = false.
Proof. reflexivity. Qed.



End OpenerFacts.

(** ** is_big_wig *)

Section BigWigFacts.
Import Opener BigWig.

Local Open Scope Z_scope.

Lemma byte_value_range (b : byte) : 0 <= byte_value b < 256.
Proof.
  unfold byte_value. pose proof (Byte.to_N_bounded b). lia.
Qed.

Lemma byte_value_inj (b c : byte) : byte_value b = byte_value c -> b = c.
Proof.
  unfold byte_value. intros H. apply N2Z.inj in H.
  pose proof (Byte.of_to_N b) as Hb. rewrite H, Byte.of_to_N in Hb.
  congruence.
Qed.

(** Appending a byte to the right of a non-negative number. *)
Lemma push_byte (acc : Z) (b : byte) :
  0 <= acc -> Z.lor (Z.shiftl acc 8) (byte_value b) = 256 * acc + byte_value b.
Proof.
  intros Hacc. pose proof (byte_value_range b) as Hb.
  assert (Hland : Z.land (Z.shiftl acc 8) (byte_value b) = 0).
  { apply Z.bits_inj'. intros n Hn.
    rewrite Z.land_spec, Z.bits_0.
    destruct (Z.ltb_spec n 8) as [Hlt|Hge].
    - rewrite Z.shiftl_spec_low by lia. reflexivity.
    - destruct (Z.eq_dec (byte_value b) 0) as [->|Hnz].
      + rewrite Z.bits_0. apply andb_false_r.
      + rewrite (Z.bits_above_log2 (byte_value b) n); [apply andb_false_r|lia|].
        apply Z.lt_le_trans with 8; [|exact Hge].
        apply Z.log2_lt_pow2; [lia|]. change (2 ^ 8) with 256. lia. }
  rewrite <- (Z.lxor_lor _ _ Hland), <- (Z.add_nocarry_lxor _ _ Hland).
  rewrite Z.shiftl_mul_pow2 by lia. change (2 ^ 8) with 256. lia.
Qed.

(** Unpacking four bytes gives their value by place, in either order. *)
Lemma unpack_L_little (b0 b1 b2 b3 : byte) :
  unpack_L LittleEndian [b0; b1; b2; b3] = Ok (uint32_le b0 b1 b2 b3).
Proof.
  pose proof (byte_value_range b0). pose proof (byte_value_range b1).
  pose proof (byte_value_range b2). pose proof (byte_value_range b3).
  unfold unpack_L, uint32_le.
  cbn [List.length Nat.eqb rev app from_bytes_be].
  rewrite (push_byte 0 b3) by lia. rewrite (push_byte _ b2) by lia.
  rewrite (push_byte _ b1) by lia. rewrite (push_byte _ b0) by lia.
  f_equal. lia.
Qed.

Lemma unpack_L_big (b0 b1 b2 b3 : byte) :
  unpack_L BigEndian [b0; b1; b2; b3] = Ok (uint32_be b0 b1 b2 b3).
Proof.
  pose proof (byte_value_range b0). pose proof (byte_value_range b1).
  pose proof (byte_value_range b2). pose proof (byte_value_range b3).
  unfold unpack_L, uint32_be, uint32_le.
  cbn [List.length Nat.eqb from_bytes_be].
  rewrite (push_byte 0 b0) by lia. rewrite (push_byte _ b1) by lia.
  rewrite (push_byte _ b2) by lia. rewrite (push_byte _ b3) by lia.
  f_equal. lia.
Qed.

Lemma unpack_L_short (order : byte_order) (s : list byte) :
  (List.length s < 4)%nat -> unpack_L order s = Raise StructError.
Proof.
  intros Hlen. unfold unpack_L.
  destruct (Nat.eqb_spec (List.length s) 4) as [Heq|_]; [lia|reflexivity].
Qed.

(** The magic constant has one byte string in each order. *)
Lemma uint32_le_signature (b0 b1 b2 b3 : byte) :
  uint32_le b0 b1 b2 b3 = BIG_WIG_SIGNATURE <-> [b0; b1; b2; b3] = signature_le.
Proof.
  unfold signature_le. split.
  - intros Hv. unfold uint32_le, BIG_WIG_SIGNATURE in Hv.
    pose proof (byte_value_range b0). pose proof (byte_value_range b1).
    pose proof (byte_value_range b2). pose proof (byte_value_range b3).
    assert (byte_value b0 = byte_value x26) by (change (byte_value x26) with 38; lia).
    assert (byte_value b1 = byte_value xfc) by (change (byte_value xfc) with 252; lia).
    assert (byte_value b2 = byte_value x8f) by (change (byte_value x8f) with 143; lia).
    assert (byte_value b3 = byte_value x88) by (change (byte_value x88) with 136; lia).
    repeat f_equal; now apply byte_value_inj.
  - intros [= -> -> -> ->]. reflexivity.
Qed.

Lemma uint32_be_signature (b0 b1 b2 b3 : byte) :
  uint32_be b0 b1 b2 b3 = BIG_WIG_SIGNATURE <-> [b0; b1; b2; b3] = signature_be.
Proof.
  unfold uint32_be. rewrite uint32_le_signature. unfold signature_le, signature_be.
  split; intros [= -> -> -> ->]; reflexivity.
Qed.

(** The classification of a file that holds at least four bytes. *)
Lemma is_big_wig_four (fs : filesystem) (filename : string)
      (b0 b1 b2 b3 : byte) (rest : list byte) :
  fs filename = Some (b0 :: b1 :: b2 :: b3 :: rest) ->
  is_big_wig fs filename
  = Ok ((uint32_le b0 b1 b2 b3 =? BIG_WIG_SIGNATURE)
        || (uint32_be b0 b1 b2 b3 =? BIG_WIG_SIGNATURE)).
Proof.
  intros Hfs. unfold is_big_wig, read_prefix. rewrite Hfs.
  cbn [BIG_WIG_SIGNATURE_BYTE_SIZE firstn bind].
  rewrite unpack_L_little, unpack_L_big. cbn [bind].
  now destruct (_ || _).
Qed.

(** C5: for a file of at least four bytes, [is_big_wig] returns a boolean,
    which is true exactly when the first four bytes, read as an unsigned
    32-bit integer in little-endian or in big-endian order, are the magic
    constant 0x888FFC26, that is when they are the bytes 26 FC 8F 88 or
    88 8F FC 26. *)
Theorem is_big_wig_signature (fs : filesystem) (filename : string)
        (content : list byte) :
  fs filename = Some content ->
  (4 <= List.length content)%nat ->
  exists b0 b1 b2 b3 : byte,
    firstn 4 content = [b0; b1; b2; b3]
    /\ is_big_wig fs filename
       = Ok ((uint32_le b0 b1 b2 b3 =? 0x888FFC26)
             || (uint32_be b0 b1 b2 b3 =? 0x888FFC26))
    /\ (is_big_wig fs filename = Ok true <->
        firstn 4 content = signature_le \/ firstn 4 content = signature_be)
    /\ (is_big_wig fs filename = Ok false <->
        firstn 4 content <> signature_le /\ firstn 4 content <> signature_be).
Proof.
  intros Hfs Hlen.
  destruct content as [|b0 [|b1 [|b2 [|b3 rest]]]]; simpl in Hlen; try lia.
  exists b0, b1, b2, b3.
  rewrite (is_big_wig_four fs filename b0 b1 b2 b3 rest Hfs).
  change 0x888FFC26 with BIG_WIG_SIGNATURE.
  cbn [firstn].
  rewrite <- uint32_le_signature, <- uint32_be_signature.
  destruct (Z.eqb_spec (uint32_le b0 b1 b2 b3) BIG_WIG_SIGNATURE) as [Hl|Hl];
    destruct (Z.eqb_spec (uint32_be b0 b1 b2 b3) BIG_WIG_SIGNATURE) as [Hb|Hb];
    simpl; repeat split; try tauto; try discriminate; intuition congruence.
Qed.

(** The file of the spec's example, four zero bytes, and the theorem at it. *)
Lemma is_big_wig_signature_witness :
  let fs : filesystem := fun _ => Some [x00; x00; x00; x00; x2a]%byte in
  exists b0 b1 b2 b3 : byte,
    firstn 4 [x00; x00; x00; x00; x2a]%byte = [b0; b1; b2; b3]
    /\ is_big_wig fs "zeros.bw"
       = Ok ((uint32_le b0 b1 b2 b3 =? 0x888FFC26)
             || (uint32_be b0 b1 b2 b3 =? 0x888FFC26))
    /\ (is_big_wig fs "zeros.bw" = Ok true <->
        firstn 4 [x00; x00; x00; x00; x2a]%byte = signature_le
        \/ firstn 4 [x00; x00; x00; x00; x2a]%byte = signature_be)
    /\ (is_big_wig fs "zeros.bw" = Ok false <->
        firstn 4 [x00; x00; x00; x00; x2a]%byte <> signature_le
        /\ firstn 4 [x00; x00; x00; x00; x2a]%byte <> signature_be).
Proof.
  intros fs.
  apply (is_big_wig_signature fs "zeros.bw" [x00; x00; x00; x00; x2a]%byte).
  - reflexivity.
  - simpl. lia.
Defined.

Example is_big_wig_zero_bytes :
  is_big_wig (fun _ => Some [x00; x00; x00; x00]%byte) "zeros.bw" = Ok false.
Proof. reflexivity. Qed.

Example is_big_wig_little_endian :
  is_big_wig (fun _ => Some signature_le) "le.bw" = Ok true.
Proof. reflexivity. Qed.

Example is_big_wig_big_endian :
  is_big_wig (fun _ => Some signature_be) "be.bw" = Ok true.
Proof. reflexivity. Qed.

(** C3, as the code has it: on a file of fewer than four bytes, the empty
    file included, [is_big_wig] returns no boolean; it fails in
    [struct.unpack], with struct.error. *)
Theorem is_big_wig_truncated (fs : filesystem) (filename : string)
        (content : list byte) :
  fs filename = Some content ->
  (List.length content < 4)%nat ->
  is_big_wig fs filename = Raise StructError.
Proof.
  intros Hfs Hlen. unfold is_big_wig, read_prefix. rewrite Hfs. cbn [bind].
  rewrite unpack_L_short; [reflexivity|].
  rewrite length_firstn. unfold BIG_WIG_SIGNATURE_BYTE_SIZE. lia.
Qed.

Lemma is_big_wig_truncated_witness :
  let fs : filesystem := fun _ => Some [x88; x8f]%byte in
  is_big_wig fs "short.bw" = Raise StructError.
Proof.
  intros fs. apply (is_big_wig_truncated fs "short.bw" [x88; x8f]%byte).
  - reflexivity.
  - simpl. lia.
Defined.

(** C3 as stated fails: the error raised on the empty file is not IOError. *)
Lemma is_big_wig_empty_file_not_IOError :
  let fs : filesystem := fun _ => Some [] in
  fs "empty.bw" = Some []
  /\ (List.length (@nil byte) < 4)%nat
  /\ is_big_wig fs "empty.bw" <> Raise IOError.
Proof.
  intros fs. split; [reflexivity|]. split; [simpl; lia|].
  vm_compute. discriminate.
Qed.

(** IOError is what a path that cannot be opened gives. *)
Example is_big_wig_missing_file : is_big_wig (fun _ => None) "none.bw" = Raise IOError.
Proof. reflexivity. Qed.

End BigWigFacts.

(** ** init_num_obs *)

Section NumObsFacts.
Import Accum.

(** C6: on a 2-D array, [init_num_obs] returns the second dimension when no
    count was recorded, returns the count when the recorded count is the
    second dimension, and fails on the assertion when the recorded count
    differs from it. *)
Theorem init_num_obs_check (rows cols previous : nat) (items : list Z) :
  previous <> cols ->
  let continuous := mk_ndarray [rows; cols] items in
  init_num_obs None continuous = Ok cols
  /\ init_num_obs (Some cols) continuous = Ok cols
  /\ init_num_obs (Some previous) continuous = Raise AssertionError.
Proof.
  intros Hneq continuous. unfold init_num_obs, same_num_obs. simpl.
  rewrite Nat.eqb_refl.
  destruct (Nat.eqb_spec previous cols) as [Heq|_]; [contradiction|].
  repeat split.
Qed.

(** The spec's example: dimension 5 recorded, then 5 again, then 6. *)
Lemma init_num_obs_check_witness :
  6 <> 5
  /\ (let continuous := mk_ndarray [1; 5] [3; 1; 4; 1; 5]%Z in
      init_num_obs None continuous = Ok 5
      /\ init_num_obs (Some 5) continuous = Ok 5
      /\ init_num_obs (Some 6) continuous = Raise AssertionError).
Proof.
  split; [lia|]. apply (init_num_obs_check 1 5 6 [3; 1; 4; 1; 5]%Z). lia.
Defined.

(** An array of fewer than two dimensions has no second dimension. *)
Example init_num_obs_one_dimension :
  init_num_obs None (mk_ndarray [3] [1; 2; 3]%Z) = Raise IndexError.
Proof. reflexivity. Qed.

End NumObsFacts.

(** ** new_extrema *)

Section ExtremaFacts.
Import Accum.

Local Open Scope Z_scope.

Lemma length_zip_with (op : Z -> Z -> Z) (u v : list Z) :
  List.length u = List.length v ->
  List.length (zip_with op u v) = List.length u.
Proof.
  revert v. induction u as [|x u IH]; intros [|y v] Hlen; simpl in *;
    try discriminate; [reflexivity|].
  f_equal. apply IH. congruence.
Qed.

Lemma nth_zip_with (op : Z -> Z -> Z) (u v : list Z) (i : nat) :
  List.length u = List.length v -> (i < List.length u)%nat ->
  nth i (zip_with op u v) 0 = op (nth i u 0) (nth i v 0).
Proof.
  revert v i. induction u as [|x u IH]; intros [|y v] i Hlen Hi; simpl in *;
    try discriminate; [lia|].
  destruct i as [|i]; [reflexivity|]. apply IH; [congruence|lia].
Qed.

Lemma length_block (n k : nat) (items : list Z) :
  List.length items = (S k * n)%nat -> List.length (firstn n items) = n.
Proof. intros H. rewrite length_firstn. nia. Qed.

Lemma length_rest (n k : nat) (items : list Z) :
  List.length items = (S k * n)%nat -> List.length (skipn n items) = (k * n)%nat.
Proof. intros H. rewrite length_skipn. nia. Qed.

Lemma length_fold_blocks (op : Z -> Z -> Z) (n k : nat) :
  forall items acc,
  List.length items = (k * n)%nat -> List.length acc = n ->
  List.length (fold_blocks op n k items acc) = n.
Proof.
  induction k as [|k IH]; intros items acc Hitems Hacc; simpl; [exact Hacc|].
  apply IH.
  - now apply length_rest.
  - rewrite length_zip_with; [exact Hacc|].
    rewrite (length_block n k) by exact Hitems. exact Hacc.
Qed.

Lemma column_succ (n k : nat) (items : list Z) (i : nat) :
  column n (S k) items i = nth i items 0 :: column n k (skipn n items) i.
Proof.
  unfold column. cbn [seq map]. f_equal.
  rewrite <- seq_shift, map_map.
  apply map_ext. intros j. rewrite nth_skipn. f_equal. lia.
Qed.

(** Position [i] of the folded blocks is the fold of column [i]. *)
Lemma nth_fold_blocks (op : Z -> Z -> Z) (n k : nat) (i : nat) :
  (i < n)%nat ->
  forall items acc,
  List.length items = (k * n)%nat -> List.length acc = n ->
  nth i (fold_blocks op n k items acc) 0
  = fold_left op (column n k items i) (nth i acc 0).
Proof.
  intros Hi. induction k as [|k IH]; intros items acc Hitems Hacc.
  - reflexivity.
  - rewrite column_succ. cbn [fold_blocks fold_left].
    pose proof (length_block n k items Hitems) as Hblock.
    rewrite IH.
    + rewrite nth_zip_with by lia. now rewrite nth_firstn, (proj2 (Nat.ltb_lt i n) Hi).
    + now apply length_rest.
    + rewrite length_zip_with; lia.
Qed.

(** The batch's own reduction along its batch axis. *)
Lemma reduction_batch (op : Z -> Z -> Z) (k : nat) (s : list nat) (items : list Z) :
  List.length items = (S k * size_of s)%nat ->
  exists cur,
    reduction op (AnArray (mk_ndarray (S k :: s) items)) = Ok (mk_ndarray s cur)
    /\ List.length cur = size_of s
    /\ forall i, (i < size_of s)%nat ->
         nth i cur 0 = extremum op (column (size_of s) (S k) items i).
Proof.
  intros Hitems. eexists. split; [reflexivity|]. cbn [flat]. split.
  - apply length_fold_blocks; [now apply length_rest|now apply (length_block _ k)].
  - intros i Hi. rewrite column_succ. cbn [extremum].
    rewrite (nth_fold_blocks op _ k i Hi);
      [|now apply length_rest|now apply (length_block _ k)].
    now rewrite nth_firstn, (proj2 (Nat.ltb_lt _ _) Hi).
Qed.

(** Two arrays of one shape, stacked and reduced, give the item by item
    combination. *)
Lemma reduction_pair (op : Z -> Z -> Z) (s : list nat) (u v : list Z) :
  List.length u = size_of s -> List.length v = size_of s ->
  reduction op (AList [Some (mk_ndarray s u); Some (mk_ndarray s v)])
  = Ok (mk_ndarray s (zip_with op u v)).
Proof.
  intros Hu Hv. unfold reduction, asarray.
  cbn [forallb same_shape shape flat map flat_of List.concat].
  destruct (list_eq_dec Nat.eq_dec s s) as [_|Hne]; [|contradiction].
  cbn [andb bind]. unfold reduce_axis0. cbn [shape flat List.length fold_blocks].
  rewrite app_nil_r.
  assert (Hfirst : firstn (size_of s) (u ++ v) = u).
  { rewrite firstn_app, firstn_all2 by lia.
    replace (size_of s - List.length u)%nat with 0%nat by lia.
    now rewrite firstn_O, app_nil_r. }
  assert (Hsecond : firstn (size_of s) (skipn (size_of s) (u ++ v)) = v).
  { rewrite skipn_app, skipn_all2 by lia.
    replace (size_of s - List.length u)%nat with 0%nat by lia.
    rewrite skipn_O. cbn [app]. apply firstn_all2. lia. }
  now rewrite Hfirst, Hsecond.
Qed.

(** The fold of a batch into an existing extremum array. *)
Lemma new_extrema_array (op : Z -> Z -> Z) (k : nat) (s : list nat)
      (items ext : list Z) :
  List.length items = (S k * size_of s)%nat ->
  List.length ext = size_of s ->
  exists res,
    new_extrema (reduction op) (mk_ndarray (S k :: s) items) (Some (mk_ndarray s ext))
    = Ok (mk_ndarray s res)
    /\ List.length res = size_of s
    /\ forall i, (i < size_of s)%nat ->
         nth i res 0
         = op (nth i ext 0) (extremum op (column (size_of s) (S k) items i)).
Proof.
  intros Hitems Hext.
  destruct (reduction_batch op k s items Hitems) as (cur & Hcur & Hlen & Hnth).
  exists (zip_with op ext cur). unfold new_extrema. rewrite Hcur. cbn [bind].
  rewrite reduction_pair by assumption. split; [reflexivity|]. split.
  - rewrite length_zip_with; lia.
  - intros i Hi. rewrite nth_zip_with by lia. now rewrite Hnth.
Qed.

(** C2, as the code has it: [new_extrema] hands to the operator the list of
    the existing extremum and of the batch's reduction, whatever the
    existing extremum is; with a min or max reduction and an existing
    extremum array of the shape of the batch's reduction, the result is,
    at every position, the operator applied to the existing extremum and
    to the extremum of the batch at that position. *)
Theorem new_extrema_fold (op : Z -> Z -> Z) (data existing : ndarray) (k : nat) :
  valid data -> valid existing ->
  shape data = S k :: shape existing ->
  (forall func extrema,
      new_extrema func data extrema
      = (curr_extrema <- func (AnArray data) ;;
         func (AList [extrema; Some curr_extrema])))
  /\ exists curr result,
       reduction op (AnArray data) = Ok curr
       /\ new_extrema (reduction op) data (Some existing) = Ok result
       /\ shape curr = shape existing /\ valid curr
       /\ shape result = shape existing /\ valid result
       /\ forall i, (i < size_of (shape existing))%nat ->
            nth i (flat curr) 0
            = extremum op (column (size_of (shape existing)) (S k) (flat data) i)
            /\ nth i (flat result) 0
               = op (nth i (flat existing) 0) (nth i (flat curr) 0).
Proof.
  destruct data as [sh items], existing as [s ext]. unfold valid. cbn [shape flat].
  intros Hitems Hext ->. cbn [size_of fold_right] in Hitems. fold (size_of s) in Hitems.
  split; [reflexivity|].
  destruct (reduction_batch op k s items Hitems) as (cur & Hcur & Hlen & Hnth).
  destruct (new_extrema_array op k s items ext Hitems Hext)
    as (res & Hres & Hlres & Hnres).
  exists (mk_ndarray s cur), (mk_ndarray s res). cbn [shape flat].
  repeat split; try assumption.
  - now apply Hnth.
  - rewrite Hnres by assumption. now rewrite Hnth.
Qed.

(** The spec's example: [4, 0, 6] folded by max into [1, 5, 3]. *)
Lemma new_extrema_fold_witness :
  let data := mk_ndarray [1; 3]%nat [4; 0; 6] in
  let existing := mk_ndarray [3%nat] [1; 5; 3] in
  (forall func extrema,
      new_extrema func data extrema
      = (curr_extrema <- func (AnArray data) ;;
         func (AList [extrema; Some curr_extrema])))
  /\ exists curr result,
       reduction Z.max (AnArray data) = Ok curr
       /\ new_extrema (reduction Z.max) data (Some existing) = Ok result
       /\ shape curr = shape existing /\ valid curr
       /\ shape result = shape existing /\ valid result
       /\ forall i, (i < size_of (shape existing))%nat ->
            nth i (flat curr) 0
            = extremum Z.max (column (size_of (shape existing)) 1 (flat data) i)
            /\ nth i (flat result) 0
               = Z.max (nth i (flat existing) 0) (nth i (flat curr) 0).
Proof.
  intros data existing.
  apply (new_extrema_fold Z.max data existing 0); reflexivity.
Defined.

Example new_extrema_max_example :
  new_extrema amax (mk_ndarray [1; 3]%nat [4; 0; 6])
              (Some (mk_ndarray [3%nat] [1; 5; 3]))
  = Ok (mk_ndarray [3%nat] [4; 5; 6]).
Proof. reflexivity. Qed.

(** C2 as stated fails on the first call: with no existing extremum and the
    batch [[1, 5, 3]], the max reduction of the batch is [1, 5, 3], and
    [new_extrema] does not return it. *)
Lemma new_extrema_none_not_batch_reduction :
  let data := mk_ndarray [1; 3]%nat [1; 5; 3] in
  amax (AnArray data) = Ok (mk_ndarray [3%nat] [1; 5; 3])
  /\ new_extrema amax data None <> amax (AnArray data).
Proof.
  intros data. split; [reflexivity|]. vm_compute. discriminate.
Qed.

Example new_extrema_min_max_example :
  let data := mk_ndarray [2; 3]%nat [4; 0; 6; 2; 9; -1] in
  new_extrema amin data (Some (mk_ndarray [3%nat] [1; 5; 3]))
  = Ok (mk_ndarray [3%nat] [1; 0; -1])
  /\ new_extrema amax data (Some (mk_ndarray [3%nat] [1; 7; 3]))
     = Ok (mk_ndarray [3%nat] [4; 9; 6]).
Proof. split; reflexivity. Qed.

End ExtremaFacts.

(** ** LightIterator *)

Section ParserFacts.
Import Parser ParserFraming.

Lemma is_marker_nonempty (line : string) : is_marker line = true -> nonempty line = true.
Proof. destruct line; [discriminate|reflexivity]. Qed.

Lemma is_marker_not_body (line : string) : is_marker line = true -> is_body line = false.
Proof. unfold is_body. intros ->. apply andb_false_r. Qed.

Lemma empty_not_body (line : string) : nonempty line = false -> is_body line = false.
Proof. unfold is_body. now intros ->. Qed.

(** *** Every call of [next] that returns a record reads a line *)

Lemma for_line_consumes (handle : list string) :
  forall self_defline defline_old lines r self',
  for_line handle self_defline defline_old lines = (Ok r, self') ->
  List.length (_handle self') + (if nonempty_list lines then 0 else 1)
  <= List.length handle.
Proof.
  induction handle as [|l rest IH]; intros sd dold lines r self' Hrun;
    cbn [for_line] in Hrun.
  - destruct lines; [discriminate|]. injection Hrun as _ <-. simpl. lia.
  - destruct (nonempty l); cbn [negb] in Hrun.
    + destruct (startswith l ">").
      * destruct (truthy dold || nonempty_list lines).
        -- destruct lines; [discriminate|]. injection Hrun as _ <-. simpl. lia.
        -- apply IH in Hrun. simpl. destruct (nonempty_list lines); lia.
      * apply IH in Hrun. destruct lines; simpl in *; lia.
    + destruct (negb (truthy dold) && negb (nonempty_list lines)); [discriminate|].
      destruct (truthy dold).
      * destruct lines; [discriminate|]. injection Hrun as _ <-. simpl. lia.
      * apply IH in Hrun. simpl. destruct (nonempty_list lines); lia.
Qed.

Lemma next_consumes (self self' : LightIterator) (r : record) :
  next self = (Ok r, self') ->
  List.length (_handle self') < List.length (_handle self).
Proof.
  unfold next. intros Hrun. apply for_line_consumes in Hrun. simpl in Hrun. lia.
Qed.

Lemma iterate_fuel_enough (fuel : nat) :
  forall self, List.length (_handle self) < fuel ->
  exists rs e, iterate_fuel fuel self = Some (rs, e).
Proof.
  induction fuel as [|fuel IH]; intros self Hfuel; [lia|].
  cbn [iterate_fuel]. destruct (next self) as [[r|e] self'] eqn:Hnext.
  - apply next_consumes in Hnext.
    destruct (IH self') as (rs & e & ->); [lia|]. eauto.
  - eauto.
Qed.

(** The iteration always ends: the fuel of [iterate] is never used up. *)
Lemma iterate_total (self : LightIterator) :
  exists rs e, iterate self = Some (rs, e).
Proof. apply iterate_fuel_enough. lia. Qed.

(** *** What a call of [next] reads and returns *)

(** The three ways out of lines 57 to 63. *)
Lemma finish_cases (defline_old : option string) (lines : list string) :
  match finish defline_old lines with
  | Ok (_, body) => lines <> [] /\ body = join lines
  | Raise StopIteration => lines = []
  | Raise ValueError => lines <> [] /\ defline_old = None
  | Raise _ => False
  end.
Proof.
  destruct lines as [|l lines]; [reflexivity|].
  destruct defline_old as [d|]; simpl; split; congruence.
Qed.

(** A call reads a prefix of the handle; the list [lines] it builds is made
    of the stripped body lines of that prefix, and decides the outcome. *)
Lemma for_line_trace (handle : list string) :
  forall self_defline defline_old lines res self',
  for_line handle self_defline defline_old lines = (res, self') ->
  exists consumed,
    handle = consumed ++ _handle self'
    /\ match res with
       | Ok (_, body) =>
           lines ++ map rstrip (filter is_body consumed) <> []
           /\ body = join (lines ++ map rstrip (filter is_body consumed))
       | Raise StopIteration => lines ++ map rstrip (filter is_body consumed) = []
       | Raise ValueError => lines ++ map rstrip (filter is_body consumed) <> []
       | Raise _ => False
       end.
Proof.
  induction handle as [|l rest IH]; intros sd dold lines res self' Hrun;
    cbn [for_line] in Hrun.
  - injection Hrun as <- <-. exists []. split; [reflexivity|].
    cbn [filter map]. rewrite app_nil_r.
    pose proof (finish_cases dold lines) as Hf.
    destruct (finish dold lines) as [[d body]|[]]; tauto.
  - destruct (nonempty l) eqn:Hne; cbn [negb] in Hrun.
    + destruct (startswith l ">") eqn:Hmark.
      * pose proof (is_marker_not_body l Hmark) as Hbody.
        destruct (truthy dold || nonempty_list lines).
        -- injection Hrun as <- <-. exists [l]. split; [reflexivity|].
           cbn [filter map]. rewrite Hbody. cbn [map]. rewrite app_nil_r.
           pose proof (finish_cases dold lines) as Hf.
           destruct (finish dold lines) as [[d body]|[]]; tauto.
        -- apply IH in Hrun. destruct Hrun as (consumed & -> & Hres).
           exists (l :: consumed). split; [reflexivity|].
           cbn [filter]. now rewrite Hbody.
      * assert (Hbody : is_body l = true)
          by (unfold is_body, is_marker; now rewrite Hne, Hmark).
        apply IH in Hrun. destruct Hrun as (consumed & -> & Hres).
        exists (l :: consumed). split; [reflexivity|].
        cbn [filter]. rewrite Hbody. cbn [map].
        rewrite <- app_assoc in Hres. exact Hres.
    + pose proof (empty_not_body l Hne) as Hbody.
      destruct (negb (truthy dold) && negb (nonempty_list lines)) eqn:Hstop.
      * injection Hrun as <- <-. exists [l]. split; [reflexivity|].
        cbn [filter map]. rewrite Hbody. cbn [map]. rewrite app_nil_r.
        apply andb_true_iff in Hstop. destruct Hstop as [_ Hstop].
        destruct lines; [reflexivity|discriminate].
      * destruct (truthy dold).
        -- injection Hrun as <- <-. exists [l]. split; [reflexivity|].
           cbn [filter map]. rewrite Hbody. cbn [map]. rewrite app_nil_r.
           pose proof (finish_cases dold lines) as Hf.
           destruct (finish dold lines) as [[d body]|[]]; tauto.
        -- apply IH in Hrun. destruct Hrun as (consumed & -> & Hres).
           exists (l :: consumed). split; [reflexivity|].
           cbn [filter]. now rewrite Hbody.
Qed.

(** A call that has a pending or fresh label and meets no body line. *)
Lemma next_pending_no_body (handle : list string) (d : string) :
  nonempty d = true -> no_body_ahead handle = true ->
  fst (next (mkLightIterator handle (Some d))) = Raise StopIteration.
Proof.
  intros Hd Hahead. unfold next. cbn [_handle _defline].
  destruct handle as [|l rest]; [reflexivity|].
  cbn [no_body_ahead] in Hahead. cbn [for_line].
  rewrite (is_marker_nonempty l Hahead). cbn [negb].
  unfold is_marker in Hahead. rewrite Hahead. cbn [truthy]. now rewrite Hd.
Qed.

(** C9, as the code has it: a call of [next] reads a prefix of the handle;
    it returns a record exactly when that prefix holds a body line, and the
    body returned is the concatenation of the stripped body lines read (a
    body may be the empty string); a marker line with a non-empty label
    that is followed by another marker line or by the end of the stream
    gives no record: the call raises StopIteration. *)
Theorem next_record_has_body_lines (self : LightIterator) :
  (exists consumed,
      _handle self = consumed ++ _handle (snd (next self))
      /\ match fst (next self) with
         | Ok (_, body) =>
             filter is_body consumed <> []
             /\ body = join (map rstrip (filter is_body consumed))
         | Raise StopIteration => filter is_body consumed = []
         | Raise ValueError => filter is_body consumed <> []
         | Raise _ => False
         end)
  /\ (forall marker rest,
        is_marker marker = true -> nonempty (label_of marker) = true ->
        no_body_ahead rest = true ->
        fst (next (init (marker :: rest))) = Raise StopIteration
        /\ fst (next (mkLightIterator rest (Some (label_of marker))))
           = Raise StopIteration).
Proof.
  split.
  - destruct (next self) as [res self'] eqn:Hnext. unfold next in Hnext.
    apply for_line_trace in Hnext. destruct Hnext as (consumed & Hsplit & Hres).
    exists consumed. split; [exact Hsplit|]. cbn [fst app] in *.
    destruct res as [[d body]|[]]; try exact Hres.
    + destruct Hres as [Hne ->]. split; [|reflexivity].
      intros Hnil. rewrite Hnil in Hne. now apply Hne.
    + intros Hnil. rewrite Hnil in Hres. now apply Hres.
    + now destruct (filter is_body consumed).
  - intros marker rest Hmark Hlabel Hahead.
    pose proof (next_pending_no_body rest (label_of marker) Hlabel Hahead) as Hpending.
    split; [|exact Hpending].
    unfold next, init. cbn [_handle _defline for_line].
    rewrite (is_marker_nonempty marker Hmark). cbn [negb].
    unfold is_marker in Hmark. rewrite Hmark. cbn [truthy nonempty_list orb].
    exact Hpending.
Qed.

Lemma next_record_has_body_lines_witness :
  fst (next (init [line ">chr1"; line ">chr2"; line "ACGT"])) = Raise StopIteration
  /\ fst (next (mkLightIterator [line ">chr2"; line "ACGT"]
                                (Some (label_of (line ">chr1")))))
     = Raise StopIteration.
Proof.
  apply (proj2 (next_record_has_body_lines
                  (init [line ">chr1"; line ">chr2"; line "ACGT"]))
               (line ">chr1") [line ">chr2"; line "ACGT"]); reflexivity.
Defined.

(** C9 as stated fails: a marker line followed by a blank line gives a
    record whose body is the empty string. *)
Lemma next_blank_line_empty_body :
  fst (next (init [line ">chr1"; line ""])) = Ok ("chr1", "")
  /\ iterate (init [line ">chr1"; line ""]) = Some ([("chr1", "")], StopIteration).
Proof. split; reflexivity. Qed.

(** *** Body lines before the first marker line *)

(** With no label and a line already collected, the call ends on the
    ValueError whatever follows. *)
Lemma for_line_no_defline (handle : list string) :
  forall self_defline lines,
  lines <> [] ->
  fst (for_line handle self_defline None lines) = Raise ValueError.
Proof.
  induction handle as [|l rest IH]; intros sd lines Hlines; cbn [for_line].
  - destruct lines; [contradiction|reflexivity].
  - destruct lines as [|x lines]; [contradiction|].
    cbn [truthy nonempty_list negb andb orb].
    destruct (nonempty l); cbn [negb].
    + destruct (startswith l ">"); [reflexivity|].
      apply IH. discriminate.
    + apply IH. discriminate.
Qed.

(** C4: on an input whose first line is a body line, the first call of
    [next] raises the ValueError, and so the iteration yields no record and
    ends on that error. *)
Theorem next_body_before_marker (first : string) (rest : list string) :
  is_body first = true ->
  fst (next (init (first :: rest))) = Raise ValueError
  /\ iterate (init (first :: rest)) = Some ([], ValueError).
Proof.
  intros Hbody. apply andb_true_iff in Hbody. destruct Hbody as [Hne Hmark].
  apply negb_true_iff in Hmark. unfold is_marker in Hmark.
  assert (Hnext : fst (next (init (first :: rest))) = Raise ValueError).
  { unfold next, init. cbn [_handle _defline for_line].
    rewrite Hne, Hmark. cbn [negb]. apply for_line_no_defline.
    discriminate. }
  split; [exact Hnext|].
  unfold iterate. cbn [iterate_fuel].
  destruct (next (init (first :: rest))) as [res self']. cbn [fst] in Hnext.
  now subst res.
Qed.

Lemma next_body_before_marker_witness :
  is_body (line "ACGT") = true
  /\ fst (next (init [line "ACGT"; line ">chr1"; line "TTGA"])) = Raise ValueError
  /\ iterate (init [line "ACGT"; line ">chr1"; line "TTGA"]) = Some ([], ValueError).
Proof.
  split; [reflexivity|].
  apply (next_body_before_marker (line "ACGT") [line ">chr1"; line "TTGA"]).
  reflexivity.
Defined.

(** *** Well-formed input *)

(** With a label and a collected line, the call reads the body lines up to
    the next marker line and returns the record. *)
Lemma for_line_body (handle : list string) :
  forall self_defline d lines,
  nonempty d = true -> lines <> [] ->
  well_formed_from false handle = true ->
  for_line handle self_defline (Some d) lines
  = (Ok (d, join (lines ++ map rstrip (body_lines handle))),
     after_call handle self_defline).
Proof.
  induction handle as [|l rest IH]; intros sd d lines Hd Hlines Hwf.
  - cbn [for_line body_lines map]. rewrite app_nil_r.
    destruct lines; [contradiction|reflexivity].
  - cbn [well_formed_from] in Hwf. cbn [for_line body_lines].
    unfold after_call. cbn [after_body].
    destruct (is_marker l) eqn:Hmark.
    + rewrite (is_marker_nonempty l Hmark). cbn [negb].
      unfold is_marker in Hmark. rewrite Hmark. cbn [truthy]. rewrite Hd.
      cbn [orb map]. rewrite app_nil_r.
      destruct lines; [contradiction|reflexivity].
    + apply andb_true_iff in Hwf. destruct Hwf as [Hne Hwf].
      rewrite Hne. cbn [negb]. unfold is_marker in Hmark. rewrite Hmark.
      rewrite IH; [|exact Hd| |exact Hwf].
      * cbn [map]. now rewrite <- app_assoc.
      * now destruct lines.
Qed.

(** Right after a marker line, the call returns that marker's record. *)
Lemma next_after_marker (handle : list string) (d : string) :
  nonempty d = true ->
  well_formed_from true handle = true ->
  next (mkLightIterator handle (Some d))
  = (Ok (d, join (map rstrip (body_lines handle))), after_call handle (Some d)).
Proof.
  intros Hd Hwf. unfold next. cbn [_handle _defline].
  destruct handle as [|l rest]; [discriminate|].
  cbn [well_formed_from] in Hwf.
  destruct (is_marker l) eqn:Hmark; [discriminate|].
  apply andb_true_iff in Hwf. destruct Hwf as [Hne Hwf].
  cbn [for_line body_lines]. unfold after_call. cbn [after_body].
  rewrite Hmark, Hne. cbn [negb]. unfold is_marker in Hmark. rewrite Hmark.
  rewrite for_line_body; [reflexivity|exact Hd|discriminate|exact Hwf].
Qed.

Lemma after_body_length (handle : list string) :
  List.length (after_body handle) <= List.length handle.
Proof.
  induction handle as [|l rest IH]; simpl; [lia|].
  destruct (is_marker l); simpl; lia.
Qed.

Lemma records_of_after_body (handle : list string) :
  records_of handle = records_of (after_body handle).
Proof.
  induction handle as [|l rest IH]; simpl; [reflexivity|].
  destruct (is_marker l) eqn:Hmark; [|exact IH].
  simpl. now rewrite Hmark.
Qed.

(** What well-formedness says of the next marker line. *)
Lemma well_formed_after_body (handle : list string) :
  forall prev marker rest,
  well_formed_from prev handle = true ->
  after_body handle = marker :: rest ->
  is_marker marker = true
  /\ nonempty (label_of marker) = true
  /\ well_formed_from true rest = true.
Proof.
  induction handle as [|l tail IH]; intros prev marker rest Hwf Hafter;
    [discriminate|].
  cbn [well_formed_from after_body] in *.
  destruct (is_marker l) eqn:Hmark.
  - injection Hafter as <- <-.
    apply andb_true_iff in Hwf. destruct Hwf as [Hwf Hrest].
    apply andb_true_iff in Hwf. destruct Hwf as [_ Hlabel]. auto.
  - apply andb_true_iff in Hwf. destruct Hwf as [_ Hwf]. eauto.
Qed.

(** The iteration from the state that follows a marker line. *)
Lemma iterate_after_marker (n : nat) :
  forall handle d fuel,
  List.length handle <= n -> List.length handle < fuel ->
  nonempty d = true ->
  well_formed_from true handle = true ->
  iterate_fuel fuel (mkLightIterator handle (Some d))
  = Some ((d, join (map rstrip (body_lines handle))) :: records_of handle,
          StopIteration).
Proof.
  induction n as [|n IH]; intros handle d fuel Hn Hfuel Hd Hwf.
  - destruct handle; [discriminate|simpl in Hn; lia].
  - destruct fuel as [|fuel]; [lia|].
    cbn [iterate_fuel]. rewrite (next_after_marker handle d Hd Hwf).
    assert (Hlen : List.length handle > 0) by (destruct handle; [discriminate|simpl; lia]).
    pose proof (after_body_length handle) as Hafter.
    rewrite (records_of_after_body handle).
    unfold after_call.
    destruct (after_body handle) as [|marker rest] eqn:Hab.
    + destruct fuel as [|fuel]; [lia|]. reflexivity.
    + destruct (well_formed_after_body handle true marker rest Hwf Hab)
        as (Hmark & Hlabel & Hrest).
      simpl in Hafter.
      rewrite (IH rest (label_of marker) fuel); try assumption; try lia.
      cbn [records_of]. now rewrite Hmark.
Qed.

Lemma records_of_length (input : list string) :
  List.length (records_of input) = count_markers input.
Proof.
  unfold count_markers.
  induction input as [|l rest IH]; simpl; [reflexivity|].
  destruct (is_marker l); simpl; congruence.
Qed.

Lemma records_of_labels (input : list string) :
  map fst (records_of input) = map label_of (filter is_marker input).
Proof.
  induction input as [|l rest IH]; simpl; [reflexivity|].
  destruct (is_marker l); simpl; congruence.
Qed.

Lemma well_formed_labels (input : list string) :
  forall prev, well_formed_from prev input = true ->
  Forall (fun r => nonempty (fst r) = true) (records_of input).
Proof.
  induction input as [|l rest IH]; intros prev Hwf; simpl; [constructor|].
  cbn [well_formed_from] in Hwf.
  destruct (is_marker l).
  - apply andb_true_iff in Hwf. destruct Hwf as [Hwf Hrest].
    apply andb_true_iff in Hwf. destruct Hwf as [_ Hlabel].
    constructor; [exact Hlabel|eauto].
  - apply andb_true_iff in Hwf. destruct Hwf as [_ Hwf]. eauto.
Qed.

(** [well_formed] is the framing of the format together with a body line
    after every marker line. *)
Lemma well_formed_from_framed (input : list string) :
  forall prev,
  well_formed_from prev input
  = framed_from true input && bodies_follow_from prev input.
Proof.
  induction input as [|l rest IH]; intros prev;
    cbn [well_formed_from framed_from bodies_follow_from]; [reflexivity|].
  destruct (is_marker l).
  - rewrite IH. destruct prev, (nonempty (label_of l)), (framed_from true rest);
      reflexivity.
  - rewrite IH. rewrite andb_true_r. now rewrite andb_assoc.
Qed.

Lemma well_formed_framed (input : list string) :
  well_formed input = framed input && bodies_follow input.
Proof.
  unfold well_formed, framed, bodies_follow.
  destruct input as [|l rest]; [reflexivity|].
  rewrite well_formed_from_framed.
  cbn [framed_from bodies_follow_from].
  destruct (is_marker l); cbn [andb negb].
  - reflexivity.
  - now rewrite andb_false_r.
Qed.

(** C1, as the code has it: on a well-formed input with N marker lines in
    which, moreover, every marker line is followed at once by a body line,
    the iteration ends normally after having yielded the records of the
    input: one record per marker line, N in all, in the order of the file,
    each with the non-empty label of its marker line and the concatenation
    of its stripped body lines; the record of the last marker line, pending
    when the stream ends, is among them. *)
Theorem iterate_well_formed (input : list string) :
  framed input = true ->
  bodies_follow input = true ->
  iterate (init input) = Some (records_of input, StopIteration)
  /\ List.length (records_of input) = count_markers input
  /\ map fst (records_of input) = map label_of (filter is_marker input)
  /\ Forall (fun r => nonempty (fst r) = true) (records_of input).
Proof.
  intros Hframed Hbodies.
  assert (Hwf : well_formed input = true)
    by (rewrite well_formed_framed, Hframed, Hbodies; reflexivity).
  split; [|split; [apply records_of_length|split; [apply records_of_labels|]]].
  - destruct input as [|marker rest]; [reflexivity|].
    cbn [well_formed] in Hwf. apply andb_true_iff in Hwf. destruct Hwf as [Hmark Hwf].
    cbn [well_formed_from] in Hwf. rewrite Hmark in Hwf. cbn [negb andb] in Hwf.
    apply andb_true_iff in Hwf. destruct Hwf as [Hlabel Hrest].
    pose proof (iterate_after_marker (List.length rest) rest (label_of marker)
                  (S (List.length (marker :: rest))) (le_n _)) as Hrun.
    cbn [records_of]. rewrite Hmark.
    assert (Hfuel : List.length rest < S (List.length (marker :: rest)))
      by (simpl; lia).
    specialize (Hrun Hfuel Hlabel Hrest).
    etransitivity; [|exact Hrun].
    assert (Hfirst : next (init (marker :: rest))
                     = next (mkLightIterator rest (Some (label_of marker)))).
    { unfold next, init. cbn [_handle _defline for_line].
      rewrite (is_marker_nonempty marker Hmark). cbn [negb].
      unfold is_marker in Hmark. rewrite Hmark. reflexivity. }
    unfold iterate. cbn [iterate_fuel]. rewrite Hfirst. reflexivity.
  - destruct input as [|marker rest]; [constructor|].
    cbn [well_formed] in Hwf. apply andb_true_iff in Hwf. destruct Hwf as [_ Hwf].
    now apply (well_formed_labels _ false).
Qed.

Lemma iterate_well_formed_witness :
  let input := [line ">chr1 first"; line "ACGT"; line "TTGA"; line ">chr2"; "GGCC"] in
  framed input = true /\ bodies_follow input = true
  /\ (iterate (init input) = Some (records_of input, StopIteration)
      /\ List.length (records_of input) = count_markers input
      /\ map fst (records_of input) = map label_of (filter is_marker input)
      /\ Forall (fun r => nonempty (fst r) = true) (records_of input)).
Proof.
  intros input. split; [reflexivity|]. split; [reflexivity|].
  apply (iterate_well_formed input); reflexivity.
Defined.

(** C1 as stated fails: an input that is well-formed by the framing of the
    format, with two marker lines, the first of them without a body line,
    yields no record at all; and a marker line that ends the stream, its
    label pending, yields no record either. *)
Lemma iterate_marker_without_body_loses_records :
  framed [line ">chr1"; line ">chr2"; line "ACGT"] = true
  /\ bodies_follow [line ">chr1"; line ">chr2"; line "ACGT"] = false
  /\ count_markers [line ">chr1"; line ">chr2"; line "ACGT"] = 2
  /\ iterate (init [line ">chr1"; line ">chr2"; line "ACGT"])
     = Some ([], StopIteration)
  /\ framed [line ">chr1"; line "ACGT"; line ">chr2"] = true
  /\ count_markers [line ">chr1"; line "ACGT"; line ">chr2"] = 2
  /\ iterate (init [line ">chr1"; line "ACGT"; line ">chr2"])
     = Some ([("chr1", "ACGT")], StopIteration).
Proof. repeat split. Qed.

Example iterate_two_records :
  iterate (init [line ">chr1 first"; line "ACGT"; line "TTGA"; line ">chr2"; "GGCC"])
  = Some ([("chr1 first", "ACGTTTGA"); ("chr2", "GGCC")], StopIteration).
Proof. reflexivity. Qed.

(** Without a body line after it, a marker line gives no record, even when
    its label is pending at the end of the stream. *)
Example iterate_marker_without_body :
  iterate (init [line ">chr1"]) = Some ([], StopIteration).
Proof. reflexivity. Qed.

(** An empty input yields no record and no error. *)
Example iterate_empty_input : iterate (init []) = Some ([], StopIteration).
Proof. reflexivity. Qed.

End ParserFacts.

(** ** LightIterator: further behaviour *)

Section ParserMore.
Import Parser ParserLabels ParserRun.

Lemma join_app (a b : list string) : join (a ++ b) = (join a ++ join b)%string.
Proof.
  unfold join. induction a as [|x a IH]; [reflexivity|].
  destruct a as [|y a].
  - destruct b as [|z b]; simpl.
    + clear IH. induction x; simpl; [reflexivity|now f_equal].
    + reflexivity.
  - change (String.concat "" ((x :: y :: a) ++ b))
      with (x ++ String.concat "" ((y :: a) ++ b))%string.
    rewrite IH.
    change (String.concat "" (x :: y :: a)) with (x ++ String.concat "" (y :: a))%string.
    generalize (String.concat "" (y :: a)) as u.
    generalize (String.concat "" b) as v.
    intros v u. clear. induction x; simpl; [reflexivity|now f_equal].
Qed.

Lemma join_cons (x : string) (l : list string) : join (x :: l) = (x ++ join l)%string.
Proof.
  change (x :: l) with ([x] ++ l). rewrite join_app. reflexivity.
Qed.

(** Body lines at the head of the handle are collected one after the
    other, whatever the label at hand. *)
Lemma for_line_collect (bs : list string) :
  forall tail self_defline defline_old lines,
  Forall (fun l => is_body l = true) bs ->
  for_line (bs ++ tail) self_defline defline_old lines
  = for_line tail self_defline defline_old (lines ++ map rstrip bs).
Proof.
  induction bs as [|b bs IH]; intros tail sd dold lines Hbs.
  - cbn [app map]. now rewrite app_nil_r.
  - inversion Hbs as [|? ? Hb Hrest]; subst.
    apply andb_true_iff in Hb. destruct Hb as [Hne Hmark].
    apply negb_true_iff in Hmark. unfold is_marker in Hmark.
    cbn [app for_line]. rewrite Hne, Hmark. cbn [negb].
    rewrite IH by assumption. cbn [map]. now rewrite <- app_assoc.
Qed.

(** What one call reads and returns, for [next]. *)
Lemma next_trace (self : LightIterator) :
  exists consumed,
    _handle self = consumed ++ _handle (snd (next self))
    /\ match fst (next self) with
       | Ok (_, body) =>
           filter is_body consumed <> []
           /\ body = join (map rstrip (filter is_body consumed))
       | Raise StopIteration => filter is_body consumed = []
       | Raise ValueError => filter is_body consumed <> []
       | Raise _ => False
       end.
Proof.
  destruct (next self) as [res self'] eqn:Hnext. unfold next in Hnext.
  apply for_line_trace in Hnext. destruct Hnext as (consumed & Hsplit & Hres).
  exists consumed. split; [exact Hsplit|]. cbn [fst app] in *.
  destruct res as [[d body]|[]]; try exact Hres.
  - destruct Hres as [Hne ->]. split; [|reflexivity].
    intros Hnil. rewrite Hnil in Hne. now apply Hne.
  - intros Hnil. rewrite Hnil in Hres. now apply Hres.
  - now destruct (filter is_body consumed).
Qed.

(** X1: the iteration ends, on a call of [next] that raises from a state
    [before] and leaves a state [final]; the lines of the handle are those
    read by the calls that returned a record, then those read by that last
    call, then those left in [final]; the concatenation of the bodies of
    all the records yielded is the concatenation of the stripped body
    lines among the first; the last call read no body line when it raises
    StopIteration and read some when it raises the ValueError. *)
Theorem iterate_bodies_conserved (self : LightIterator) :
  exists rs e before final consumed last,
    run self = Some (rs, e, before, final)
    /\ iterate self = Some (rs, e)
    /\ next before = (Raise e, final)
    /\ _handle self = consumed ++ _handle before
    /\ _handle before = last ++ _handle final
    /\ join (map snd rs) = join (map rstrip (filter is_body consumed))
    /\ ((e = StopIteration /\ filter is_body last = [])
        \/ (e = ValueError /\ filter is_body last <> [])).
Proof.
  unfold run, iterate.
  assert (Hfuel : List.length (_handle self) < S (List.length (_handle self))) by lia.
  revert Hfuel. generalize (S (List.length (_handle self))) as fuel.
  intros fuel. revert self.
  induction fuel as [|fuel IH]; intros self Hfuel; [lia|].
  cbn [run_fuel iterate_fuel].
  pose proof (next_trace self) as Htrace.
  destruct (next self) as [res self'] eqn:Hnext.
  destruct Htrace as (c & Hsplit & Hres). cbn [fst snd] in *.
  destruct res as [[d body]|err].
  - pose proof (next_consumes self self' (d, body) Hnext) as Hshorter.
    destruct (IH self' ltac:(lia))
      as (rs & e & before & final & consumed & last
          & Hrun & Hit & Hlast & Hh & Hb & Hjoin & Hend).
    rewrite Hrun, Hit.
    exists ((d, body) :: rs), e, before, final, (c ++ consumed), last.
    split; [reflexivity|]. split; [reflexivity|]. split; [exact Hlast|].
    split; [rewrite Hsplit, Hh; now rewrite <- app_assoc|].
    split; [exact Hb|]. split; [|exact Hend].
    destruct Hres as [_ ->]. cbn [map snd].
    rewrite join_cons, Hjoin, filter_app, map_app, join_app. reflexivity.
  - exists [], err, self, self', [], c.
    split; [reflexivity|]. split; [reflexivity|]. split; [exact Hnext|].
    split; [reflexivity|]. split; [exact Hsplit|]. split; [reflexivity|].
    destruct err; try contradiction; [right|left]; split; try reflexivity; exact Hres.
Qed.

Example run_two_records :
  run (init [line ">chr1"; line "ACGT"; line ">chr2"; line "TT"; line "GA"])
  = Some ([("chr1", "ACGT"); ("chr2", "TTGA")], StopIteration,
          mkLightIterator [] (Some "chr2"), mkLightIterator [] (Some "chr2")).
Proof. reflexivity. Qed.

(** The lines after a marker line without body line are left unread. *)
Example run_stops_early :
  run (init [line ">chr1"; line ">chr2"; line "ACGT"])
  = Some ([], StopIteration,
          init [line ">chr1"; line ">chr2"; line "ACGT"],
          mkLightIterator [line "ACGT"] (Some "chr2")).
Proof. reflexivity. Qed.

(** *** Where labels come from *)

(** The label returned and the label left pending are the label at hand or
    labels of marker lines of the handle; the lines left are among the
    lines of the handle. *)
Lemma for_line_labels (handle : list string) :
  forall self_defline defline_old lines res self',
  for_line handle self_defline defline_old lines = (res, self') ->
  (forall d body, res = Ok (d, body) -> In d (held defline_old ++ labels handle))
  /\ incl (held (_defline self')) (held self_defline ++ labels handle)
  /\ incl (labels (_handle self')) (labels handle).
Proof.
  induction handle as [|l rest IH]; intros sd dold lines res self' Hrun;
    cbn [for_line] in Hrun.
  - injection Hrun as <- <-. cbn [_defline _handle]. unfold labels. cbn [filter map].
    rewrite !app_nil_r. split; [|split; apply incl_refl].
    intros d body Hfin. unfold finish in Hfin.
    destruct lines; [discriminate|]. destruct dold; [|discriminate].
    injection Hfin as <- _. now left.
  - assert (Hfinish : forall d body, finish dold lines = Ok (d, body) ->
                      In d (held dold ++ labels (l :: rest))).
    { intros d body Hfin. unfold finish in Hfin.
      destruct lines; [discriminate|]. destruct dold; [|discriminate].
      injection Hfin as <- _. now left. }
    assert (Hsuffix : incl (labels rest) (labels (l :: rest))).
    { unfold labels. cbn [filter]. destruct (is_marker l); cbn [map];
        [apply incl_tl|]; apply incl_refl. }
    destruct (nonempty l) eqn:Hne; cbn [negb] in Hrun.
    + destruct (startswith l ">") eqn:Hmark.
      * assert (Hlab : labels (l :: rest) = label_of l :: labels rest).
        { unfold labels. cbn [filter]. unfold is_marker at 1. now rewrite Hmark. }
        destruct (truthy dold || nonempty_list lines) eqn:Hbreak.
        -- injection Hrun as <- <-. cbn [_defline _handle held].
           split; [exact Hfinish|]. split; [|exact Hsuffix].
           intros x [<-|[]]. apply in_or_app. right. rewrite Hlab. now left.
        -- apply IH in Hrun. destruct Hrun as (Hd & Hp & Hr).
           cbn [held] in Hd, Hp. rewrite Hlab.
           split; [|split].
           ++ intros d body Hres. apply in_or_app. right.
              apply (Hd d body Hres).
           ++ intros x Hx. apply in_or_app. right. apply (Hp x Hx).
           ++ intros x Hx. right. apply (Hr x Hx).
      * apply IH in Hrun. destruct Hrun as (Hd & Hp & Hr).
        assert (Hlab : labels (l :: rest) = labels rest).
        { unfold labels. cbn [filter]. unfold is_marker at 1. now rewrite Hmark. }
        rewrite Hlab. auto.
    + assert (Hlab : labels (l :: rest) = labels rest).
      { unfold labels. cbn [filter]. destruct l; [reflexivity|discriminate]. }
      destruct (negb (truthy dold) && negb (nonempty_list lines)).
      * injection Hrun as <- <-. cbn [_defline _handle].
        split; [discriminate|]. split; [apply incl_appl, incl_refl|exact Hsuffix].
      * destruct (truthy dold).
        -- injection Hrun as <- <-. cbn [_defline _handle held].
           split; [exact Hfinish|]. split; [intros x []|exact Hsuffix].
        -- apply IH in Hrun. rewrite Hlab. exact Hrun.
Qed.

(** X2: every label yielded by the iteration is the label pending when it
    starts or the label of a marker line of the handle; on a new iterator,
    it is the label of a marker line of the input. *)
Theorem iterate_labels_from_markers (self : LightIterator) (rs : list record)
        (e : exception) :
  iterate self = Some (rs, e) ->
  Forall (fun r => In (fst r) (held (_defline self) ++ labels (_handle self))) rs.
Proof.
  unfold iterate. generalize (S (List.length (_handle self))) as fuel.
  intros fuel. revert self rs e.
  induction fuel as [|fuel IH]; intros self rs e Hrun; [discriminate|].
  cbn [iterate_fuel] in Hrun.
  destruct (next self) as [res self'] eqn:Hnext. unfold next in Hnext.
  apply for_line_labels in Hnext. destruct Hnext as (Hd & Hp & Hr).
  destruct res as [[d body]|err].
  - destruct (iterate_fuel fuel self') as [[rs' e']|] eqn:Hrest; [|discriminate].
    injection Hrun as <- <-. constructor.
    + apply (Hd d body eq_refl).
    + apply IH in Hrest. revert Hrest. apply Forall_impl. intros r Hin.
      apply in_app_or in Hin. destruct Hin as [Hin|Hin].
      * apply (Hp _ Hin).
      * apply in_or_app. right. apply (Hr _ Hin).
  - injection Hrun as <- <-. constructor.
Qed.

Lemma iterate_labels_from_markers_witness :
  let input := [line ">chr1"; line "ACGT"; line ">chr2"; line "TT"; line "GA"] in
  Forall (fun r => In (fst r) (held (_defline (init input))
                               ++ labels (_handle (init input))))
         [("chr1", "ACGT"); ("chr2", "TTGA")].
Proof.
  intros input.
  apply (iterate_labels_from_markers (init input) _ StopIteration). reflexivity.
Defined.

(** *** Empty strings and empty labels *)

(** X3: an item of the handle that is the empty string ends the sequence at
    once when no label is held and no line collected, leaving what follows
    unread; after a label and its body lines it ends the record and clears
    the pending label, so that the iterator is as new on what follows. *)
Theorem next_empty_string (pending : option string) (d : string)
        (bs rest : list string) :
  truthy pending = false -> nonempty d = true ->
  bs <> [] -> Forall (fun l => is_body l = true) bs ->
  next (mkLightIterator ("" :: rest) pending)
  = (Raise StopIteration, mkLightIterator rest pending)
  /\ next (mkLightIterator (bs ++ "" :: rest) (Some d))
     = (Ok (d, join (map rstrip bs)), init rest).
Proof.
  intros Hp Hd Hbs Hbody. split.
  - unfold next. cbn [_handle _defline for_line nonempty negb nonempty_list].
    now rewrite Hp.
  - unfold next. cbn [_handle _defline]. rewrite for_line_collect by assumption.
    cbn [app for_line nonempty negb truthy]. rewrite Hd. cbn [negb andb].
    destruct bs as [|b bs]; [contradiction|reflexivity].
Qed.

Lemma next_empty_string_witness :
  next (mkLightIterator [""; line ">chr2"; line "TT"] None)
  = (Raise StopIteration, mkLightIterator [line ">chr2"; line "TT"] None)
  /\ next (mkLightIterator ([line "AC"; line "GT"] ++ [""; line ">chr2"; line "TT"])
                           (Some "chr1"))
     = (Ok ("chr1", join (map rstrip [line "AC"; line "GT"])),
        init [line ">chr2"; line "TT"]).
Proof.
  apply (next_empty_string None "chr1" [line "AC"; line "GT"]
                           [line ">chr2"; line "TT"]).
  - reflexivity.
  - reflexivity.
  - discriminate.
  - repeat constructor.
Defined.

(** With an empty label at hand and a line collected, the call returns a
    record whose label is the empty string. *)
Lemma for_line_empty_label (handle : list string) :
  forall self_defline lines,
  lines <> [] ->
  exists body, fst (for_line handle self_defline (Some "") lines) = Ok ("", body).
Proof.
  induction handle as [|l rest IH]; intros sd lines Hlines; cbn [for_line].
  - destruct lines; [contradiction|]. cbn [fst finish]. eauto.
  - destruct lines as [|x lines]; [contradiction|].
    cbn [truthy nonempty nonempty_list negb andb orb].
    destruct (nonempty l); cbn [negb].
    + destruct (startswith l ">"); [cbn [fst finish]; eauto|].
      apply IH. discriminate.
    + apply IH. discriminate.
Qed.

(** X4: a marker line whose label is empty is dropped when a marker line
    follows it at once, and gives a record labelled by the empty string
    when a body line follows it. *)
Theorem next_empty_label (marker other body_line : string) (rest : list string) :
  is_marker marker = true -> label_of marker = "" ->
  is_marker other = true -> is_body body_line = true ->
  next (init (marker :: other :: rest)) = next (init (other :: rest))
  /\ exists body, fst (next (init (marker :: body_line :: rest))) = Ok ("", body).
Proof.
  intros Hmark Hlabel Hother Hbody.
  assert (Hfirst : forall following,
             next (init (marker :: following :: rest))
             = for_line (following :: rest) (Some "") (Some "") []).
  { intros following. unfold next, init. cbn [_handle _defline for_line].
    rewrite (is_marker_nonempty marker Hmark). cbn [negb].
    unfold is_marker in Hmark. rewrite Hmark. cbn [truthy nonempty_list orb].
    unfold label_of in Hlabel. now rewrite Hlabel. }
  rewrite !Hfirst. split.
  - unfold next, init. cbn [_handle _defline for_line].
    rewrite (is_marker_nonempty other Hother). cbn [negb].
    unfold is_marker in Hother. rewrite Hother. reflexivity.
  - apply andb_true_iff in Hbody. destruct Hbody as [Hne Hnm].
    apply negb_true_iff in Hnm. unfold is_marker in Hnm.
    cbn [for_line]. rewrite Hne, Hnm. cbn [negb].
    apply for_line_empty_label. discriminate.
Qed.

Lemma next_empty_label_witness :
  next (init [line ">"; line ">chr2"; line "TT"]) = next (init [line ">chr2"; line "TT"])
  /\ exists body, fst (next (init [line ">"; line "ACGT"; line "TT"])) = Ok ("", body).
Proof.
  apply (next_empty_label (line ">") (line ">chr2") (line "ACGT") [line "TT"]);
    reflexivity.
Defined.

End ParserMore.

(** ** ignore_comments: further behaviour *)

Section CommentMore.
Import Comments.

(** X5: the generator reads its input no further than the item it yields:
    it yields [item] and leaves [rest] exactly when the input is a run of
    comment items, then [item], which is no comment, then [rest]; it is
    exhausted exactly when every item left is a comment. *)
Theorem generator_next_consumption (iterable : list string) :
  (forall item rest,
      generator_next iterable = Some (item, rest) <->
      exists skipped,
        iterable = skipped ++ item :: rest
        /\ Forall (fun c => startswith c "#" = true) skipped
        /\ startswith item "#" = false)
  /\ (generator_next iterable = None <->
      Forall (fun c => startswith c "#" = true) iterable).
Proof.
  induction iterable as [|x xs [IHsome IHnone]]; cbn [generator_next].
  - split.
    + intros item rest. split; [discriminate|].
      intros ([|s skipped] & Heq & _); discriminate.
    + split; [constructor|reflexivity].
  - destruct (startswith x "#") eqn:Hx; cbn [negb].
    + split.
      * intros item rest. rewrite IHsome. split.
        -- intros (skipped & -> & Hsk & Hitem).
           exists (x :: skipped). repeat split; [now constructor|exact Hitem].
        -- intros ([|s skipped] & Heq & Hsk & Hitem).
           ++ injection Heq as -> _. congruence.
           ++ injection Heq as -> ->. inversion Hsk; subst. eauto.
      * rewrite IHnone. split; [now constructor|]. intros H. now inversion H.
    + split.
      * intros item rest. split.
        -- intros [= <- <-]. exists []. repeat split; [constructor|exact Hx].
        -- intros ([|s skipped] & Heq & Hsk & Hitem).
           ++ now injection Heq as -> ->.
           ++ injection Heq as -> _. inversion Hsk; subst. congruence.
      * split; [discriminate|]. intros H. inversion H; subst. congruence.
Qed.

Lemma generator_next_consumption_witness :
  generator_next ["# header"; "#"; "chr1 10"; "# note"; "chr1 20"]
  = Some ("chr1 10", ["# note"; "chr1 20"]).
Proof.
  apply (proj1 (generator_next_consumption
                  ["# header"; "#"; "chr1 10"; "# note"; "chr1 20"])).
  exists ["# header"; "#"]. repeat split; repeat constructor.
Defined.

(** X6: filtering commutes with concatenation of the inputs, filtering
    twice is filtering once, and the output is never longer than the
    input. *)
Theorem ignore_comments_compose (first second : list string) :
  ignore_comments (first ++ second)
  = ignore_comments first ++ ignore_comments second
  /\ ignore_comments (ignore_comments first) = ignore_comments first
  /\ List.length (ignore_comments first) <= List.length first.
Proof.
  induction first as [|x xs (IHapp & IHidem & IHlen)]; cbn [ignore_comments app].
  - split; [reflexivity|]. split; [reflexivity|]. apply le_n.
  - destruct (startswith x "#") eqn:Hx; cbn [negb].
    + split; [exact IHapp|]. split; [exact IHidem|]. cbn [List.length]. lia.
    + split; [cbn [app]; now rewrite IHapp|]. split.
      * cbn [ignore_comments]. rewrite Hx. cbn [negb]. now rewrite IHidem.
      * cbn [List.length]. lia.
Qed.

End CommentMore.

(** ** is_big_wig: further behaviour *)

Section BigWigMore.
Import Opener BigWig.

Local Open Scope Z_scope.

(** X7: the classification looks at the first four bytes only and does not
    depend on their order of significance: two files that begin with the
    same four bytes, or with four bytes in reverse order of each other,
    are classified alike. *)
Theorem is_big_wig_prefix_and_byte_swap (fs : filesystem) (f same swapped : string)
        (b0 b1 b2 b3 : byte) (tail_f tail_same tail_swapped : list byte) :
  fs f = Some (b0 :: b1 :: b2 :: b3 :: tail_f) ->
  fs same = Some (b0 :: b1 :: b2 :: b3 :: tail_same) ->
  fs swapped = Some (b3 :: b2 :: b1 :: b0 :: tail_swapped) ->
  is_big_wig fs same = is_big_wig fs f
  /\ is_big_wig fs swapped = is_big_wig fs f.
Proof.
  intros Hf Hsame Hswapped.
  rewrite (is_big_wig_four fs f b0 b1 b2 b3 tail_f Hf).
  rewrite (is_big_wig_four fs same b0 b1 b2 b3 tail_same Hsame).
  rewrite (is_big_wig_four fs swapped b3 b2 b1 b0 tail_swapped Hswapped).
  split; [reflexivity|]. unfold uint32_be. now rewrite orb_comm.
Qed.

Lemma is_big_wig_prefix_and_byte_swap_witness :
  let fs : filesystem := fun name =>
    if String.eqb name "le.bw" then Some (signature_le ++ [x01; x02]%byte)
    else if String.eqb name "le2.bw" then Some signature_le
    else Some (signature_be ++ [xff]%byte) in
  is_big_wig fs "le2.bw" = is_big_wig fs "le.bw"
  /\ is_big_wig fs "be.bw" = is_big_wig fs "le.bw".
Proof.
  intros fs.
  apply (is_big_wig_prefix_and_byte_swap fs "le.bw" "le2.bw" "be.bw" x26 xfc x8f x88
           [x01; x02]%byte [] [xff]%byte); reflexivity.
Defined.

Lemma short_file_struct_error (fs : filesystem) (filename : string)
      (content : list byte) :
  fs filename = Some content -> (List.length content < 4)%nat ->
  is_big_wig fs filename = Raise StructError.
Proof.
  intros Hfs Hlen. unfold is_big_wig, read_prefix. rewrite Hfs. cbn [bind].
  rewrite unpack_L_short; [reflexivity|].
  rewrite length_firstn. unfold BIG_WIG_SIGNATURE_BYTE_SIZE. lia.
Qed.

(** X8: the two failures tell the causes apart: IOError exactly when the
    file does not exist, struct.error exactly when it exists and holds
    fewer than four bytes. *)
Theorem is_big_wig_failures (fs : filesystem) (filename : string) :
  (is_big_wig fs filename = Raise IOError <-> fs filename = None)
  /\ (is_big_wig fs filename = Raise StructError <->
      exists content, fs filename = Some content /\ (List.length content < 4)%nat).
Proof.
  destruct (fs filename) as [content|] eqn:Hfs.
  - destruct (Nat.lt_ge_cases (List.length content) 4) as [Hshort|Hlong].
    + rewrite (short_file_struct_error fs filename content Hfs Hshort).
      split; split; try discriminate; eauto.
    + destruct content as [|b0 [|b1 [|b2 [|b3 rest]]]]; simpl in Hlong; try lia.
      rewrite (is_big_wig_four fs filename b0 b1 b2 b3 rest Hfs).
      split; split; try discriminate.
      intros (content & Hc & Hlen). injection Hc as <-. simpl in Hlen. lia.
  - assert (Hio : is_big_wig fs filename = Raise IOError)
      by (unfold is_big_wig, read_prefix; now rewrite Hfs).
    rewrite Hio. split; split; try discriminate; try reflexivity.
    intros (content & Hc & _). discriminate.
Qed.

Lemma is_big_wig_failures_witness :
  is_big_wig (fun _ => None) "missing.bw" = Raise IOError
  /\ is_big_wig (fun _ => Some [x88; x8f]%byte) "short.bw" = Raise StructError.
Proof.
  split.
  - apply (proj1 (is_big_wig_failures (fun _ => None) "missing.bw")). reflexivity.
  - apply (proj2 (is_big_wig_failures (fun _ => Some [x88; x8f]%byte) "short.bw")).
    exists [x88; x8f]%byte. split; [reflexivity|simpl; lia].
Defined.

End BigWigMore.

(** ** init_num_obs: further behaviour *)

Section NumObsMore.
Import Accum.

(** X9: a count threaded through two calls stays put: when both calls
    return, they return the same count, which is the second dimension of
    both arrays; and a call that returns can be repeated on its own result
    and array. *)
Theorem init_num_obs_threaded (num_obs : option nat) (first second : ndarray)
        (n m : nat) :
  init_num_obs num_obs first = Ok n ->
  init_num_obs (Some n) second = Ok m ->
  m = n
  /\ nth_error (shape first) 1 = Some n
  /\ nth_error (shape second) 1 = Some n
  /\ init_num_obs (Some n) first = Ok n.
Proof.
  unfold init_num_obs. intros Hfirst Hsecond.
  destruct (nth_error (shape first) 1) as [c1|]; [|discriminate].
  destruct (nth_error (shape second) 1) as [c2|]; [|discriminate].
  destruct (same_num_obs num_obs c1); [|discriminate].
  injection Hfirst as Hc1. subst c1. cbn [same_num_obs] in *.
  destruct (Nat.eqb_spec n c2) as [Heq|_]; [|discriminate].
  injection Hsecond as Hm. subst c2 m.
  rewrite Nat.eqb_refl. auto.
Qed.

Lemma init_num_obs_threaded_witness :
  let first := mk_ndarray [2; 3] [1; 2; 3; 4; 5; 6]%Z in
  let second := mk_ndarray [1; 3] [7; 8; 9]%Z in
  3 = 3
  /\ nth_error (shape first) 1 = Some 3
  /\ nth_error (shape second) 1 = Some 3
  /\ init_num_obs (Some 3) first = Ok 3.
Proof.
  intros first second.
  apply (init_num_obs_threaded None first second 3 3); reflexivity.
Defined.

End NumObsMore.

(** ** fill_array and new_extrema: further behaviour *)

Section ExtremaMore.
Import Accum Fill Batch.

Local Open Scope Z_scope.

(** X10: [fill_array] returns an array of the shape asked for, with as many
    items as the shape says, each of them the scalar as stored with the
    type in use; with the type left out and a scalar that its inferred
    type stores unchanged, each item is the scalar; nothing of the
    uninitialised memory shows. *)
Theorem fill_array_filled (dtype : Type) (dtype_of : Z -> dtype)
        (cast : dtype -> Z -> Z) (garbage : nat -> Z)
        (scalar : Z) (shape_arg : list nat) (dtype_arg : option dtype) :
  cast (dtype_of scalar) scalar = scalar ->
  let res := fill_array dtype dtype_of cast garbage scalar shape_arg dtype_arg in
  let stored := match dtype_arg with
                | None => scalar
                | Some d => cast d scalar
                end in
  shape res = shape_arg
  /\ valid res
  /\ flat res = repeat stored (size_of shape_arg).
Proof.
  intros Hcast res stored.
  assert (Hconst : forall (v : Z) (l : list Z),
             map (fun _ => v) l = repeat v (List.length l)).
  { intros v l. induction l as [|x l IH]; simpl; [reflexivity|now rewrite IH]. }
  assert (Hlen : List.length (map garbage (seq 0 (size_of shape_arg)))
                 = size_of shape_arg)
    by (now rewrite length_map, length_seq).
  unfold res, stored, fill_array, fill, empty, valid. cbn [shape flat].
  split; [reflexivity|]. split; [now rewrite length_map|].
  rewrite Hconst, Hlen. destruct dtype_arg; [reflexivity|now rewrite Hcast].
Qed.


Lemma fill_array_filled_witness :
  let res := fill_array unit (fun _ => tt) (fun _ z => z) (fun i => Z.of_nat i)
                        7 [3%nat] None in
  shape res = [3%nat] /\ valid res /\ flat res = repeat 7 (size_of [3%nat]).
Proof.
  apply (fill_array_filled unit (fun _ => tt) (fun _ z => z)
                           (fun i => Z.of_nat i) 7 [3%nat] None).
  reflexivity.
Defined.

(** *** The fold in closed form *)

Lemma length_batch_reduction (op : Z -> Z -> Z) (n k : nat) (items : list Z) :
  List.length items = (S k * n)%nat ->
  List.length (batch_reduction op n k items) = n.
Proof.
  intros Hitems. unfold batch_reduction.
  apply length_fold_blocks; [now apply length_rest|now apply (length_block _ k)].
Qed.

Lemma new_extrema_closed (op : Z -> Z -> Z) (k : nat) (s : list nat)
      (items ext : list Z) :
  List.length items = (S k * size_of s)%nat ->
  List.length ext = size_of s ->
  new_extrema (reduction op) (mk_ndarray (S k :: s) items) (Some (mk_ndarray s ext))
  = Ok (mk_ndarray s (zip_with op ext (batch_reduction op (size_of s) k items))).
Proof.
  intros Hitems Hext. unfold new_extrema.
  change (reduction op (AnArray (mk_ndarray (S k :: s) items)))
    with (Ok (mk_ndarray s (batch_reduction op (size_of s) k items))).
  cbn [bind]. apply reduction_pair; [exact Hext|].
  now apply length_batch_reduction.
Qed.

Lemma zip_with_assoc (op : Z -> Z -> Z) :
  (forall a b c, op (op a b) c = op a (op b c)) ->
  forall u v w, zip_with op (zip_with op u v) w = zip_with op u (zip_with op v w).
Proof.
  intros Hassoc. induction u as [|x u IH]; intros [|y v] [|z w]; simpl;
    try reflexivity.
  now rewrite Hassoc, IH.
Qed.

Lemma zip_with_comm (op : Z -> Z -> Z) :
  (forall a b, op a b = op b a) ->
  forall u v, zip_with op u v = zip_with op v u.
Proof.
  intros Hcomm. induction u as [|x u IH]; intros [|y v]; simpl; try reflexivity.
  now rewrite Hcomm, IH.
Qed.

Lemma zip_with_idem (op : Z -> Z -> Z) :
  (forall a, op a a = a) -> forall u, zip_with op u u = u.
Proof.
  intros Hidem. induction u as [|x u IH]; simpl; [reflexivity|].
  now rewrite Hidem, IH.
Qed.

Lemma fold_blocks_zip_with (op : Z -> Z -> Z) (n k : nat) :
  (forall a b c, op (op a b) c = op a (op b c)) ->
  forall items u v,
  fold_blocks op n k items (zip_with op u v)
  = zip_with op u (fold_blocks op n k items v).
Proof.
  intros Hassoc. induction k as [|k IH]; intros items u v; cbn [fold_blocks];
    [reflexivity|].
  now rewrite (zip_with_assoc op Hassoc), IH.
Qed.

Lemma fold_blocks_app (op : Z -> Z -> Z) (n a b : nat) :
  forall x y acc,
  List.length x = (a * n)%nat ->
  fold_blocks op n (a + b) (x ++ y) acc
  = fold_blocks op n b y (fold_blocks op n a x acc).
Proof.
  induction a as [|a IH]; intros x y acc Hx.
  - destruct x; [reflexivity|discriminate].
  - cbn [Nat.add fold_blocks].
    assert (Hn : (n - List.length x = 0)%nat) by nia.
    rewrite firstn_app, skipn_app, Hn, firstn_O, skipn_O, app_nil_r.
    apply IH. rewrite length_skipn. nia.
Qed.

(** X11: folding a batch into the running extremum and then a second batch
    into the result is folding the two batches stacked into one. *)
Theorem new_extrema_batches_compose (op : Z -> Z -> Z)
        (first second existing : ndarray) (k1 k2 : nat) :
  (forall a b c, op (op a b) c = op a (op b c)) ->
  valid first -> valid second -> valid existing ->
  shape first = S k1 :: shape existing ->
  shape second = S k2 :: shape existing ->
  (folded <- new_extrema (reduction op) first (Some existing) ;;
   new_extrema (reduction op) second (Some folded))
  = new_extrema (reduction op)
                (mk_ndarray ((S k1 + S k2)%nat :: shape existing)
                            (flat first ++ flat second))
                (Some existing).
Proof.
  intros Hassoc.
  destruct first as [sh1 items1], second as [sh2 items2], existing as [s ext].
  unfold valid. cbn [shape flat]. intros H1 H2 Hext -> ->.
  cbn [size_of fold_right] in H1, H2. fold (size_of s) in H1, H2.
  rewrite (new_extrema_closed op k1 s items1 ext H1 Hext). cbn [bind].
  pose proof (length_batch_reduction op (size_of s) k1 items1 H1) as Hc1.
  rewrite new_extrema_closed; [|exact H2|rewrite length_zip_with; lia].
  change (S k1 + S k2)%nat with (S (k1 + S k2)).
  rewrite new_extrema_closed; [|rewrite length_app; lia|exact Hext].
  do 2 f_equal. rewrite (zip_with_assoc op Hassoc). f_equal.
  unfold batch_reduction.
  assert (Hn : (size_of s - List.length items1 = 0)%nat) by nia.
  rewrite firstn_app, skipn_app, Hn, firstn_O, skipn_O, app_nil_r.
  rewrite fold_blocks_app by (rewrite length_skipn; nia).
  cbn [fold_blocks]. now rewrite (fold_blocks_zip_with op _ _ Hassoc).
Qed.

Lemma new_extrema_batches_compose_witness :
  let first := mk_ndarray [1; 3]%nat [1; 5; 3] in
  let second := mk_ndarray [2; 3]%nat [4; 0; 6; 2; 9; -1] in
  let existing := mk_ndarray [3%nat] [0; 0; 0] in
  (folded <- new_extrema (reduction Z.max) first (Some existing) ;;
   new_extrema (reduction Z.max) second (Some folded))
  = new_extrema (reduction Z.max)
                (mk_ndarray ((1 + 2)%nat :: shape existing)
                            (flat first ++ flat second))
                (Some existing).
Proof.
  intros first second existing.
  apply (new_extrema_batches_compose Z.max first second existing 0 1).
  - intros a b c. symmetry. apply Z.max_assoc.
  - reflexivity.
  - reflexivity.
  - reflexivity.
  - reflexivity.
  - reflexivity.
Defined.

(** X12: with an operator that is associative, commutative and idempotent,
    as min and max are, the order in which two batches are folded does not
    matter, and folding a batch a second time changes nothing. *)
Theorem new_extrema_order_and_repeat (op : Z -> Z -> Z)
        (first second existing : ndarray) (k1 k2 : nat) :
  (forall a b c, op (op a b) c = op a (op b c)) ->
  (forall a b, op a b = op b a) ->
  (forall a, op a a = a) ->
  valid first -> valid second -> valid existing ->
  shape first = S k1 :: shape existing ->
  shape second = S k2 :: shape existing ->
  (folded <- new_extrema (reduction op) first (Some existing) ;;
   new_extrema (reduction op) second (Some folded))
  = (folded <- new_extrema (reduction op) second (Some existing) ;;
     new_extrema (reduction op) first (Some folded))
  /\ (folded <- new_extrema (reduction op) first (Some existing) ;;
      new_extrema (reduction op) first (Some folded))
     = new_extrema (reduction op) first (Some existing).
Proof.
  intros Hassoc Hcomm Hidem.
  destruct first as [sh1 items1], second as [sh2 items2], existing as [s ext].
  unfold valid. cbn [shape flat]. intros H1 H2 Hext -> ->.
  cbn [size_of fold_right] in H1, H2. fold (size_of s) in H1, H2.
  pose proof (length_batch_reduction op (size_of s) k1 items1 H1) as Hc1.
  pose proof (length_batch_reduction op (size_of s) k2 items2 H2) as Hc2.
  rewrite (new_extrema_closed op k1 s items1 ext H1 Hext).
  rewrite (new_extrema_closed op k2 s items2 ext H2 Hext). cbn [bind].
  rewrite !new_extrema_closed; try assumption; try (rewrite length_zip_with; lia).
  split; do 2 f_equal.
  - rewrite !(zip_with_assoc op Hassoc). f_equal. apply (zip_with_comm op Hcomm).
  - rewrite (zip_with_assoc op Hassoc). f_equal. apply (zip_with_idem op Hidem).
Qed.

Lemma new_extrema_order_and_repeat_witness :
  let first := mk_ndarray [1; 3]%nat [1; 5; 3] in
  let second := mk_ndarray [2; 3]%nat [4; 0; 6; 2; 9; -1] in
  let existing := mk_ndarray [3%nat] [2; 2; 2] in
  (folded <- new_extrema (reduction Z.min) first (Some existing) ;;
   new_extrema (reduction Z.min) second (Some folded))
  = (folded <- new_extrema (reduction Z.min) second (Some existing) ;;
     new_extrema (reduction Z.min) first (Some folded))
  /\ (folded <- new_extrema (reduction Z.min) first (Some existing) ;;
      new_extrema (reduction Z.min) first (Some folded))
     = new_extrema (reduction Z.min) first (Some existing).
Proof.
  intros first second existing.
  apply (new_extrema_order_and_repeat Z.min first second existing 0 1).
  - intros a b c. symmetry. apply Z.min_assoc.
  - apply Z.min_comm.
  - apply Z.min_id.
  - reflexivity.
  - reflexivity.
  - reflexivity.
  - reflexivity.
  - reflexivity.
Defined.

(** *** The first fold *)







End ExtremaMore.

(** ** install.py: versions *)

Section VersionFacts.
Import Versions.

Example version2tuple_hdf5 : version2tuple "1.8.2-patch1" = Some [1; 8; 2; 1]%N.
Proof. reflexivity. Qed.

Example version2tuple_none : version2tuple "unknown" = None.
Proof. reflexivity. Qed.

Example version2str_hdf5 : version2str [1; 8; 2]%N = "1.8.2".
Proof. reflexivity. Qed.

Lemma append_empty_r (s : string) : (s ++ "")%string = s.
Proof. induction s as [|a s IH]; simpl; [reflexivity|now rewrite IH]. Qed.

Lemma append_assoc (s t u : string) : ((s ++ t) ++ u)%string = (s ++ (t ++ u))%string.
Proof. induction s as [|a s IH]; simpl; [reflexivity|now rewrite IH]. Qed.

(** The decimal writing of a number is a non-empty string of digits that
    reads back as the number. *)
Lemma string_of_uint_digits (d : Decimal.uint) :
  all_digits (NilEmpty.string_of_uint d) = true.
Proof. induction d; simpl; auto. Qed.

Lemma str_digits (n : N) : all_digits (str n) = true.
Proof. apply string_of_uint_digits. Qed.

Lemma str_nonempty (n : N) : nonempty (str n) = true.
Proof.
  unfold str. destruct n as [|p]; [reflexivity|]. cbn [N.to_uint].
  pose proof (DecimalPos.Unsigned.to_uint_nonnil p) as Hnil.
  destruct (Pos.to_uint p); [contradiction|reflexivity..].
Qed.

Lemma int_str (n : N) : int (str n) = Some n.
Proof.
  unfold int. rewrite str_nonempty. unfold str.
  rewrite NilEmpty.usu. cbn [option_map].
  now rewrite DecimalN.Unsigned.of_to.
Qed.

Lemma nonempty_length (s : string) :
  (0 <? String.length s)%nat = nonempty s.
Proof. now destruct s. Qed.

(** Reading a run of digits extends the component at hand. *)
Lemma split_from_digits (d : string) :
  forall rest current in_separator,
  all_digits d = true -> nonempty d = true ->
  split_from (d ++ rest) current in_separator
  = split_from rest (current ++ d) false.
Proof.
  induction d as [|a d IH]; intros rest current b Hd Hne; [discriminate|].
  cbn [all_digits] in Hd. apply andb_true_iff in Hd. destruct Hd as [Ha Hd].
  cbn [append split_from]. rewrite Ha.
  destruct d as [|a' d'].
  - cbn [append]. reflexivity.
  - rewrite IH by (exact Hd || reflexivity).
    now rewrite append_assoc.
Qed.

Lemma split_from_joined (first : string) (others : list string) :
  forall current in_separator,
  Forall (fun d => all_digits d = true /\ nonempty d = true) (first :: others) ->
  split_from (String.concat "." (first :: others)) current in_separator
  = (current ++ first)%string :: others.
Proof.
  revert first. induction others as [|second others IH];
    intros first current b Hall; inversion Hall as [|? ? [Hd Hne] Hrest]; subst.
  - cbn [String.concat]. rewrite <- (append_empty_r first) at 1.
    rewrite split_from_digits by assumption. reflexivity.
  - change (String.concat "." (first :: second :: others))
      with (first ++ String "." (String.concat "." (second :: others)))%string.
    rewrite split_from_digits by assumption.
    cbn [split_from]. change (is_digit ".") with false. cbn iota.
    f_equal. apply (IH second "" true Hrest).
Qed.

Lemma components_loop_strs (ver : list N) :
  forall res, components_loop (map str ver) res = res ++ ver.
Proof.
  induction ver as [|n ver IH]; intros res; cbn [map components_loop].
  - now rewrite app_nil_r.
  - rewrite nonempty_length, str_nonempty, int_str, IH.
    now rewrite <- app_assoc.
Qed.

(** X15: a version written by [version2str] is read back by
    [version2tuple]: for every non-empty tuple of non-negative integers,
    [version2tuple (version2str ver)] is [ver]. *)
Theorem version2tuple_version2str (ver : list N) :
  ver <> [] -> version2tuple (version2str ver) = Some ver.
Proof.
  intros Hne. destruct ver as [|n ver]; [contradiction|].
  unfold version2tuple, version2str, re_split_non_digits.
  cbn [map]. rewrite split_from_joined.
  - change ("" ++ str n)%string with (str n).
    change (str n :: map str ver) with (map str (n :: ver)).
    rewrite components_loop_strs. reflexivity.
  - change (str n :: map str ver) with (map str (n :: ver)).
    apply Forall_forall. intros d Hd. apply in_map_iff in Hd.
    destruct Hd as (m & <- & _). split; [apply str_digits|apply str_nonempty].
Qed.

Lemma version2tuple_version2str_witness :
  version2tuple (version2str [1; 8; 2]%N) = Some [1; 8; 2]%N.
Proof.
  apply (version2tuple_version2str [1; 8; 2]%N). discriminate.
Defined.

(** Every string of digits is read by [int]: the ValueError of the loop
    cannot occur on a component of the split. *)
Lemma uint_of_string_digits (s : string) :
  all_digits s = true -> exists d, NilEmpty.uint_of_string s = Some d.
Proof.
  induction s as [|a s IH]; intros Hs; [now exists Decimal.Nil|].
  cbn [all_digits] in Hs. apply andb_true_iff in Hs. destruct Hs as [Ha Hs].
  destruct (IH Hs) as [d Hd]. cbn [NilEmpty.uint_of_string]. rewrite Hd.
  destruct a as [[|] [|] [|] [|] [|] [|] [|] [|]]; try discriminate Ha;
    cbn; eauto.
Qed.

Lemma all_digits_app (s t : string) :
  all_digits (s ++ t) = all_digits s && all_digits t.
Proof.
  induction s as [|a s IH]; simpl; [reflexivity|].
  now rewrite IH, andb_assoc.
Qed.

Lemma split_from_all_digits (ver : string) :
  forall current in_separator,
  all_digits current = true ->
  Forall (fun c => all_digits c = true) (split_from ver current in_separator).
Proof.
  induction ver as [|a ver IH]; intros current b Hc; cbn [split_from].
  - now constructor.
  - destruct (is_digit a) eqn:Ha.
    + apply IH. rewrite all_digits_app, Hc. cbn. now rewrite Ha.
    + destruct b; [now apply IH|]. constructor; [exact Hc|now apply IH].
Qed.

Lemma components_loop_all_digits (components : list string) :
  forall res,
  Forall (fun c => all_digits c = true) components ->
  exists vals,
    components_loop components res = res ++ vals
    /\ List.length vals = List.length (filter nonempty components).
Proof.
  induction components as [|c components IH]; intros res Hall;
    cbn [components_loop filter].
  - exists []. now rewrite app_nil_r.
  - inversion Hall as [|? ? Hc Hrest]; subst.
    rewrite nonempty_length. destruct (nonempty c) eqn:Hne.
    + destruct (uint_of_string_digits c Hc) as [d Hd].
      unfold int. rewrite Hne, Hd. cbn [option_map].
      destruct (IH (res ++ [N.of_uint d]) Hrest) as (vals & -> & Hlen).
      exists (N.of_uint d :: vals). rewrite <- app_assoc. cbn [app List.length].
      now rewrite Hlen.
    + now apply IH.
Qed.

Lemma nonempty_app (s t : string) : nonempty (s ++ t) = nonempty s || nonempty t.
Proof. now destruct s. Qed.

Lemma split_from_no_component (ver : string) :
  forall current in_separator,
  (in_separator = true -> current = "") ->
  (filter nonempty (split_from ver current in_separator) = []
   <-> current = "" /\ has_digit ver = false).
Proof.
  induction ver as [|a ver IH]; intros current b Hb; cbn [split_from has_digit].
  - cbn [filter]. destruct current; cbn [nonempty]; split;
      (discriminate || tauto || (intros [? ?]; discriminate) || auto).
  - destruct (is_digit a) eqn:Ha; cbn [orb].
    + rewrite IH by discriminate. split; [|intros [_ ?]; discriminate].
      intros [Hc _]. destruct current; discriminate.
    + destruct b.
      * rewrite (Hb eq_refl). rewrite IH by reflexivity. tauto.
      * cbn [filter]. destruct current; cbn [nonempty].
        -- rewrite IH by reflexivity. tauto.
        -- split; [discriminate|intros [? _]; discriminate].
Qed.

(** X16: [version2tuple] returns None exactly when the string holds no
    digit; a tuple it returns is never empty and holds one integer for
    each run of digits of the string: no run is left out by the ValueError
    branch of the loop. *)
Theorem version2tuple_none_iff (ver : string) :
  (version2tuple ver = None <-> has_digit ver = false)
  /\ (forall res, version2tuple ver = Some res ->
       res <> []
       /\ List.length res
          = List.length (filter nonempty (re_split_non_digits ver))).
Proof.
  unfold version2tuple, re_split_non_digits.
  destruct (components_loop_all_digits (split_from ver "" false) []
              (split_from_all_digits ver "" false eq_refl)) as (vals & Hloop & Hlen).
  cbn [app] in Hloop. rewrite Hloop.
  pose proof (split_from_no_component ver "" false ltac:(discriminate)) as Hnone.
  destruct vals as [|v vals]; cbn [List.length Nat.ltb Nat.leb].
  - split; [|discriminate]. split; [intros _|reflexivity].
    destruct (filter nonempty (split_from ver "" false)); [|discriminate].
    now apply Hnone.
  - split.
    + split; [discriminate|]. intros Hno.
      destruct Hnone as [_ Hnone]. rewrite (Hnone (conj eq_refl Hno)) in Hlen.
      discriminate.
    + intros res [= <-]. split; [discriminate|exact Hlen].
Qed.

Lemma version2tuple_none_iff_witness :
  [5; 1; 8; 2]%N <> []
  /\ List.length [5; 1; 8; 2]%N
     = List.length (filter nonempty (re_split_non_digits "HDF5 Version: 1.8.2")).
Proof.
  apply (proj2 (version2tuple_none_iff "HDF5 Version: 1.8.2")). reflexivity.
Defined.

End VersionFacts.

(** ** install.py: ShellManager and prompt_yes_no *)

Section ShellFacts.
Import Shell Prompt.

Example in_env_example :
  in_env (fun _ => Some " /usr/bin:/bin ") "PATH" "/bin" = true.
Proof. reflexivity. Qed.

Example basename_example : basename "/usr/local/bin/tcsh" = "tcsh".
Proof. reflexivity. Qed.

Example init_tcsh :
  init None (fun _ => Some "/bin/tcsh")
  = (mkShellManager "tcsh" "setenv %s %s" (Some "~/.tcshrc") true, [], []).
Proof. reflexivity. Qed.

Example prompt_yes_no_example :
  prompt_yes_no "May I?" "Y" ["maybe"; "  No "; "y"]
  = ([PrintComma "May I? (Y/n) [Y] "; Print "Please enter yes or no.";
      PrintComma "May I? (Y/n) [Y] "], Returned false, ["y"]).
Proof. reflexivity. Qed.

(** *** The environment *)

Lemma rstrip_app_nonspace (a : string) (c : ascii) (b : string) :
  isspace c = false ->
  rstrip (a ++ String c b) = (a ++ String c (rstrip b))%string.
Proof.
  intros Hc. induction a as [|x a IH].
  - cbn [append rstrip]. rewrite Hc. now destruct (rstrip b).
  - cbn [append rstrip]. rewrite IH. now destruct a.
Qed.

Lemma lstrip_suffix (s : string) : exists ws, s = (ws ++ lstrip s)%string.
Proof.
  induction s as [|a s [ws IH]]; [now exists ""|].
  cbn [lstrip]. destruct (isspace a).
  - exists (String a ws). cbn [append]. now rewrite <- IH.
  - now exists "".
Qed.

Lemma rstrip_prefix (s : string) : exists ws, s = (rstrip s ++ ws)%string.
Proof.
  induction s as [|a s [ws IH]]; [now exists ""|].
  cbn [rstrip]. destruct (rstrip s) as [|b r] eqn:Hr.
  - cbn [append] in IH. destruct (isspace a).
    + exists (String a ws). cbn [append]. now rewrite <- IH.
    + exists ws. cbn [append]. now rewrite <- IH.
  - exists ws. cbn [append]. cbn [append] in IH. now rewrite <- IH.
Qed.

(** A string that [strip] leaves alone is left alone on both sides. *)
Lemma strip_fixed (v : string) :
  strip v = v -> lstrip v = v /\ rstrip v = v.
Proof.
  unfold strip. intros Hv.
  destruct (rstrip_prefix v) as [w2 H2].
  destruct (lstrip_suffix (rstrip v)) as [w1 H1].
  rewrite Hv in H1.
  assert (Hlen : String.length v
                 = String.length w1 + String.length v + String.length w2).
  { rewrite H2 at 1. rewrite H1 at 1. now rewrite !length_append. }
  assert (Hw1 : w1 = "") by (destruct w1; [reflexivity|simpl in Hlen; lia]).
  subst w1. cbn [append] in H1. rewrite H1 in Hv. now rewrite H1.
Qed.

Lemma lstrip_fixed_app (v t : string) :
  lstrip v = v -> nonempty v = true -> lstrip (v ++ t) = (v ++ t)%string.
Proof.
  destruct v as [|a v]; [discriminate|]. intros Hv _.
  cbn [append lstrip] in *. destruct (isspace a) eqn:Ha; [|reflexivity].
  exfalso. destruct (lstrip_suffix v) as [ws Hws].
  assert (Hlen : String.length (lstrip v) = S (String.length v)) by now rewrite Hv.
  rewrite Hws in Hlen at 2. rewrite length_append in Hlen. lia.
Qed.

Lemma split_on_first (sep : ascii) (v rest : string) :
  has_char sep v = false ->
  split_on sep (v ++ String sep rest) = v :: split_on sep rest.
Proof.
  induction v as [|a v IH]; cbn [has_char append split_on]; intros Hv.
  - now rewrite Ascii.eqb_refl.
  - apply orb_false_iff in Hv. destruct Hv as [Ha Hv].
    rewrite Ha, (IH Hv). reflexivity.
Qed.

Lemma split_on_whole (sep : ascii) (v : string) :
  has_char sep v = false -> split_on sep v = [v].
Proof.
  induction v as [|a v IH]; cbn [has_char split_on]; intros Hv; [reflexivity|].
  apply orb_false_iff in Hv. destruct Hv as [Ha Hv].
  now rewrite Ha, (IH Hv).
Qed.

(** X17: a value added to a variable by [add_to_env] is found there by
    [in_env], when the value holds no colon and has no white space at
    either end; the other variables are found as before; and nothing is
    found in a variable that is not set. *)
Theorem add_to_env_in_env (env : environ) (variable value : string) :
  has_char ":" value = false -> strip value = value ->
  in_env (add_to_env env variable value) variable value = true
  /\ (forall other w, other <> variable ->
       in_env (add_to_env env variable value) other w = in_env env other w)
  /\ (forall w, env variable = None -> in_env env variable w = false).
Proof.
  intros Hcolon Hstrip. destruct (strip_fixed value Hstrip) as [Hl Hr].
  split; [|split].
  - unfold in_env, add_to_env, set_env. rewrite String.eqb_refl.
    destruct (env variable) as [old|].
    + unfold strip. cbn [append].
      rewrite rstrip_app_nonspace by reflexivity.
      assert (Hfix : lstrip (value ++ String ":" (rstrip old))
                     = (value ++ String ":" (rstrip old))%string).
      { destruct value as [|a v]; [reflexivity|].
        now apply lstrip_fixed_app. }
      rewrite Hfix, split_on_first by exact Hcolon.
      unfold contains. cbn [existsb]. now rewrite String.eqb_refl.
    + rewrite Hstrip, split_on_whole by exact Hcolon.
      unfold contains. cbn [existsb]. now rewrite String.eqb_refl.
  - intros other w Hother. unfold in_env, add_to_env, set_env.
    destruct (String.eqb_spec other variable) as [Heq|_]; [contradiction|].
    reflexivity.
  - intros w Hnone. unfold in_env. now rewrite Hnone.
Qed.

Lemma add_to_env_in_env_witness :
  let env : environ := fun v => if String.eqb v "PATH" then Some "/usr/bin:/bin " else None in
  in_env (add_to_env env "PATH" "/home/me/arch/bin") "PATH" "/home/me/arch/bin" = true
  /\ (forall other w, other <> "PATH" ->
       in_env (add_to_env env "PATH" "/home/me/arch/bin") other w = in_env env other w)
  /\ (forall w, env "PATH" = None -> in_env env "PATH" w = false).
Proof.
  intros env. apply (add_to_env_in_env env "PATH" "/home/me/arch/bin"); reflexivity.
Defined.

(** White space in front of the old value is no longer stripped once a
    value has been put before it. *)
Example add_to_env_hides_entry :
  let env : environ := fun _ => Some " /bin:/usr/bin" in
  in_env env "PATH" "/bin" = true
  /\ in_env (add_to_env env "PATH" "/opt/bin") "PATH" "/bin" = false.
Proof. split; reflexivity. Qed.

(** *** The shell *)

Lemma endswith_csh_sh (name : string) :
  endswith name "csh" = true -> endswith name "sh" = true.
Proof.
  intros H. apply endswith_iff in H. destruct H as [stem ->].
  apply endswith_iff. exists (stem ++ "c")%string.
  now rewrite append_assoc.
Qed.

(** X18: the attributes set by [__init__] agree with each other: there is
    an rc file exactly when the name of the shell ends with "sh", and it
    is then the file [~/.<name>rc], with nothing printed; without an rc
    file the commands are in the console format and the two notices are
    printed; a name ending with "csh" gets the setenv format and an rc
    file. *)
Theorem init_attributes (shell : option string) (env : environ) :
  let '(m, err, out) := init shell env in
  (has_file m = true <-> endswith (name m) "sh" = true)
  /\ (has_file m = true ->
      file m = Some ("~/." ++ name m ++ "rc")%string /\ err = [] /\ out = []
      /\ _env_format m <> "set %s to %s")
  /\ (has_file m = false ->
      file m = None /\ _env_format m = "set %s to %s"
      /\ List.length err = 1
      /\ out = ["Shell-specific commands will be printed to the terminal"])
  /\ (endswith (name m) "csh" = true ->
      _env_format m = "setenv %s %s" /\ has_file m = true).
Proof.
  unfold init.
  assert (Hshell : exists sh nm,
             (endswith nm "sh" = true -> format_s sh = nm)
             /\ match shell with
                | Some given => (Some given, given)
                | None =>
                    match env "SHELL" with
                    | Some path => (Some (basename path), basename path)
                    | None => (None, EmptyString)
                    end
                end = (sh, nm)).
  { destruct shell as [given|]; [|destruct (env "SHELL") as [path|]];
      eexists; eexists; (split; [|reflexivity]); cbn [format_s];
      try reflexivity. discriminate. }
  destruct Hshell as (sh & nm & Hname & ->).
  destruct (endswith nm "csh") eqn:Hcsh; destruct (endswith nm "sh") eqn:Hsh;
    try (apply endswith_csh_sh in Hcsh; congruence);
    try rewrite (Hname eq_refl);
    cbn [name has_file file _env_format]; rewrite ?Hcsh, ?Hsh.
  - split; [tauto|]. split; [intros _; repeat split; discriminate|].
    split; [discriminate|]. intros _. now split.
  - split; [tauto|]. split; [intros _; repeat split; discriminate|].
    split; discriminate.
  - split; [split; discriminate|]. split; [discriminate|].
    split; [|discriminate]. intros _. repeat split. now destruct sh.
Qed.

Lemma init_attributes_witness :
  let m := mkShellManager "tcsh" "setenv %s %s" (Some "~/.tcshrc") true in
  file m = Some ("~/." ++ name m ++ "rc")%string
  /\ (@nil string) = [] /\ (@nil string) = []
  /\ _env_format m <> "set %s to %s".
Proof.
  intros m.
  exact (proj1 (proj2 (init_attributes None (fun _ => Some "/bin/tcsh"))) eq_refl).
Defined.

(** *** prompt_yes_no *)

(** X19: [prompt_yes_no] reads one line for each response that is neither
    a yes nor a no, asking again each time, and returns the answer of the
    first response that is one, leaving the lines after it unread; when
    the input ends before such a response, the call ends on EOFError. *)
Theorem prompt_yes_no_first_answer (query default : string)
        (bad : list string) (raw : string) (b : bool) (rest : list string) :
  Forall (fun r => answer default r = None) bad ->
  answer default raw = Some b ->
  prompt_yes_no query default (bad ++ raw :: rest)
  = (asked_again query default bad ++ [PrintComma (yes_no_prompt query default)],
     Returned b, rest)
  /\ prompt_yes_no query default bad
     = (asked_again query default bad ++ [PrintComma (yes_no_prompt query default)],
        EOFError, []).
Proof.
  intros Hbad Hraw. induction Hbad as [|r bad Hr _ [IHans IHeof]].
  - cbn [app prompt_yes_no asked_again flat_map]. now rewrite Hraw.
  - cbn [app prompt_yes_no]. rewrite Hr, IHans, IHeof. split; reflexivity.
Qed.

Lemma prompt_yes_no_first_answer_witness :
  prompt_yes_no "May I?" "Y" (["maybe"; "42"] ++ "  No " :: ["y"])
  = (asked_again "May I?" "Y" ["maybe"; "42"]
     ++ [PrintComma (yes_no_prompt "May I?" "Y")], Returned false, ["y"])
  /\ prompt_yes_no "May I?" "Y" ["maybe"; "42"]
     = (asked_again "May I?" "Y" ["maybe"; "42"]
        ++ [PrintComma (yes_no_prompt "May I?" "Y")], EOFError, []).
Proof.
  apply (prompt_yes_no_first_answer "May I?" "Y" ["maybe"; "42"] "  No " false ["y"]).
  - repeat constructor.
  - reflexivity.
Defined.

End ShellFacts.

(** ** new_extrema on arrays of any item type *)

Section ItemFacts.
Import Items.

Variable A : Type.

Lemma items_length_zip_with (op : A -> A -> A) (u v : list A) :
  List.length u = List.length v ->
  List.length (zip_with op u v) = List.length u.
Proof.
  revert v. induction u as [|x u IH]; intros [|y v] Hlen; simpl in *;
    try discriminate; [reflexivity|].
  f_equal. apply IH. congruence.
Qed.

Lemma items_length_fold_blocks (op : A -> A -> A) (n k : nat) :
  forall items acc,
  List.length items = (k * n)%nat -> List.length acc = n ->
  List.length (fold_blocks op n k items acc) = n.
Proof.
  induction k as [|k IH]; intros items acc Hitems Hacc; cbn [fold_blocks];
    [exact Hacc|].
  apply IH.
  - rewrite length_skipn. nia.
  - rewrite items_length_zip_with; [exact Hacc|].
    rewrite length_firstn. nia.
Qed.

(** The items of the reduction of a batch of [S k] blocks of [n] items. *)
Lemma items_length_batch (op : A -> A -> A) (n k : nat) (items : list A) :
  List.length items = (S k * n)%nat ->
  List.length (fold_blocks op n k (skipn n items) (firstn n items)) = n.
Proof.
  intros Hitems. apply items_length_fold_blocks.
  - rewrite length_skipn. nia.
  - rewrite length_firstn. nia.
Qed.

Lemma items_reduction_pair (op : A -> A -> A) (s : list nat) (u v : list A) :
  List.length u = Accum.size_of s -> List.length v = Accum.size_of s ->
  reduction op (AList [Some (mk_ndarray s u); Some (mk_ndarray s v)])
  = Ok (mk_ndarray s (zip_with op u v)).
Proof.
  intros Hu Hv. unfold reduction, asarray.
  cbn [forallb same_shape shape flat map flat_of List.concat].
  destruct (list_eq_dec Nat.eq_dec s s) as [_|Hne]; [|contradiction].
  cbn [andb bind]. unfold reduce_axis0. cbn [shape flat List.length fold_blocks].
  rewrite app_nil_r.
  assert (Hfirst : firstn (Accum.size_of s) (u ++ v) = u).
  { rewrite firstn_app, firstn_all2 by lia.
    replace (Accum.size_of s - List.length u)%nat with 0%nat by lia.
    now rewrite firstn_O, app_nil_r. }
  assert (Hsecond : firstn (Accum.size_of s) (skipn (Accum.size_of s) (u ++ v)) = v).
  { rewrite skipn_app, skipn_all2 by lia.
    replace (Accum.size_of s - List.length u)%nat with 0%nat by lia.
    rewrite skipn_O. cbn [app]. apply firstn_all2. lia. }
  now rewrite Hfirst, Hsecond.
Qed.

(** The fold of a non-empty batch into an existing array, in closed form. *)
Lemma items_new_extrema_closed (op : A -> A -> A) (k : nat) (s : list nat)
      (items ext : list A) :
  List.length items = (S k * Accum.size_of s)%nat ->
  List.length ext = Accum.size_of s ->
  new_extrema (reduction op) (mk_ndarray (S k :: s) items) (Some (mk_ndarray s ext))
  = Ok (mk_ndarray s
          (zip_with op ext
             (fold_blocks op (Accum.size_of s) k
                (skipn (Accum.size_of s) items) (firstn (Accum.size_of s) items)))).
Proof.
  intros Hitems Hext. unfold new_extrema.
  change (reduction op (AnArray (mk_ndarray (S k :: s) items)))
    with (Ok (mk_ndarray s
                (fold_blocks op (Accum.size_of s) k
                   (skipn (Accum.size_of s) items) (firstn (Accum.size_of s) items)))).
  cbn [bind]. apply items_reduction_pair; [exact Hext|].
  now apply items_length_batch.
Qed.



(** *** Bounds *)

Lemma items_nth_zip_with (d : A) (op : A -> A -> A) (u v : list A) (i : nat) :
  List.length u = List.length v -> (i < List.length u)%nat ->
  nth i (zip_with op u v) d = op (nth i u d) (nth i v d).
Proof.
  revert v i. induction u as [|x u IH]; intros [|y v] i Hlen Hi; simpl in *;
    try discriminate; [lia|].
  destruct i as [|i]; [reflexivity|]. apply IH; [congruence|lia].
Qed.

Lemma items_column_succ (d : A) (n k : nat) (items : list A) (i : nat) :
  column d n (S k) items i = nth i items d :: column d n k (skipn n items) i.
Proof.
  unfold column. cbn [seq map]. f_equal.
  rewrite <- seq_shift, map_map.
  apply map_ext. intros j. rewrite nth_skipn. f_equal. lia.
Qed.

Lemma items_nth_fold_blocks (d : A) (op : A -> A -> A) (n k : nat) (i : nat) :
  (i < n)%nat ->
  forall items acc,
  List.length items = (k * n)%nat -> List.length acc = n ->
  nth i (fold_blocks op n k items acc) d
  = fold_left op (column d n k items i) (nth i acc d).
Proof.
  intros Hi. induction k as [|k IH]; intros items acc Hitems Hacc.
  - reflexivity.
  - rewrite items_column_succ. cbn [fold_blocks fold_left].
    assert (Hblock : List.length (firstn n items) = n)
      by (rewrite length_firstn; nia).
    rewrite IH.
    + rewrite items_nth_zip_with by lia.
      now rewrite nth_firstn, (proj2 (Nat.ltb_lt i n) Hi).
    + rewrite length_skipn. nia.
    + rewrite items_length_zip_with; lia.
Qed.

(** The fold of an operator that returns one of its arguments and is a
    lower bound of both: it is below the start and every item folded, and
    is one of them. *)
Lemma items_fold_bound (le : A -> A -> Prop) (op : A -> A -> A) :
  (forall a b c, le a b -> le b c -> le a c) ->
  (forall a b, op a b = a \/ op a b = b) ->
  (forall a b, le (op a b) a /\ le (op a b) b) ->
  forall l x,
  Forall (fun y => le (fold_left op l x) y) (x :: l)
  /\ In (fold_left op l x) (x :: l).
Proof.
  intros Htrans Hsel Hlow.
  assert (Hrefl : forall a, le a a).
  { intros a. destruct (Hlow a a) as [H _]. destruct (Hsel a a) as [E|E];
      now rewrite E in H. }
  induction l as [|y l IH]; intros x; cbn [fold_left].
  - split; [constructor; [apply Hrefl|constructor]|now left].
  - destruct (IH (op x y)) as (Hall & Hin).
    inversion Hall as [|? ? Hhead Htail]; subst.
    destruct (Hlow x y) as [Hx Hy].
    split.
    + constructor; [now apply Htrans with (op x y)|].
      constructor; [now apply Htrans with (op x y)|exact Htail].
    + destruct Hin as [Hin|Hin]; [|right; now right].
      rewrite <- Hin. destruct (Hsel x y) as [-> | ->];
        [now left|right; now left].
Qed.

(** X13: for arrays of one item type and an operator that returns one of
    its two arguments and is a lower bound of both for a transitive order
    (min on integers or on floating point numbers without NaN, and max
    with the order reversed), the array returned holds at every position
    a bound of the existing value and of the items of the batch at that
    position, which is one of them. *)
Theorem new_extrema_attains_bounds (d : A) (le : A -> A -> Prop) (op : A -> A -> A)
        (data existing : ndarray A) (k : nat) :
  (forall a b c, le a b -> le b c -> le a c) ->
  (forall a b, op a b = a \/ op a b = b) ->
  (forall a b, le (op a b) a /\ le (op a b) b) ->
  valid data -> valid existing ->
  shape data = S k :: shape existing ->
  exists result,
    new_extrema (reduction op) data (Some existing) = Ok result
    /\ shape result = shape existing /\ valid result
    /\ forall i, (i < Accum.size_of (shape existing))%nat ->
         Forall (fun x => le (nth i (flat result) d) x)
                (nth i (flat existing) d
                 :: column d (Accum.size_of (shape existing)) (S k) (flat data) i)
         /\ In (nth i (flat result) d)
               (nth i (flat existing) d
                :: column d (Accum.size_of (shape existing)) (S k) (flat data) i).
Proof.
  intros Htrans Hsel Hlow.
  destruct data as [sh items], existing as [s ext]. unfold valid. cbn [shape flat].
  intros Hitems Hext ->.
  cbn [Accum.size_of fold_right] in Hitems. fold (Accum.size_of s) in Hitems.
  rewrite (items_new_extrema_closed op k s items ext Hitems Hext).
  pose proof (items_length_batch op (Accum.size_of s) k items Hitems) as Hcur.
  eexists. split; [reflexivity|]. cbn [shape flat].
  split; [reflexivity|]. split; [rewrite items_length_zip_with; lia|].
  intros i Hi. rewrite (items_nth_zip_with d) by lia.
  rewrite (items_nth_fold_blocks d op _ k i Hi);
    [|rewrite length_skipn; nia|rewrite length_firstn; nia].
  rewrite nth_firstn, (proj2 (Nat.ltb_lt _ _) Hi), items_column_succ.
  set (e := nth i ext d). set (x := nth i items d).
  set (r := column d (Accum.size_of s) k (skipn (Accum.size_of s) items) i).
  destruct (items_fold_bound le op Htrans Hsel Hlow r x) as (Hall & Hin).
  destruct (Hlow e (fold_left op r x)) as [He Hf].
  split.
  - constructor; [exact He|].
    revert Hall. apply Forall_impl. intros y Hy.
    now apply Htrans with (fold_left op r x).
  - destruct (Hsel e (fold_left op r x)) as [-> | ->]; [now left|now right].
Qed.

End ItemFacts.

Section ItemExamples.
Import Items.

Local Open Scope Z_scope.


Lemma new_extrema_attains_bounds_witness :
  let data := mk_ndarray [2; 3]%nat [4; 0; 6; 2; 9; -1] in
  let existing := mk_ndarray [3%nat] [1; 5; 3] in
  exists result,
    new_extrema (reduction Z.max) data (Some existing) = Ok result
    /\ shape result = shape existing /\ valid result
    /\ forall i, (i < Accum.size_of (shape existing))%nat ->
         Forall (fun x => Z.ge (nth i (flat result) 0) x)
                (nth i (flat existing) 0
                 :: column 0 (Accum.size_of (shape existing)) 2 (flat data) i)
         /\ In (nth i (flat result) 0)
               (nth i (flat existing) 0
                :: column 0 (Accum.size_of (shape existing)) 2 (flat data) i).
Proof.
  intros data existing.
  apply (new_extrema_attains_bounds Z 0 Z.ge Z.max data existing 1).
  - intros a b c Hab Hbc. lia.
  - intros a b. destruct (Z.max_spec a b) as [[_ ->]|[_ ->]]; [now right|now left].
  - intros a b. split; lia.
  - reflexivity.
  - reflexivity.
  - reflexivity.
Defined.


End ItemExamples.
